(** * sse-chat-backend: the channel registry, broadcast and stream lifecycle
    of [src/index.ts], embedded as explicit state passing.

    The server keeps one process-wide [Map] from channel ids to
    [{ emitter, messageCounter }].  Every [GET /events/:channelId] request
    that asks for an event stream registers a "broadcast" listener on the
    channel's [EventEmitter]; [POST /message/:channelId] inserts the message
    in the database and emits "broadcast" on the emitter found in the map.

    Each handler reads or writes [eventEmitters] only in its last synchronous
    segment (after its last [await]), so a request is one atomic step of the
    model, taken when that segment runs.  The result of every [pool.query]
    is an input of the step: [None] stands for a rejected query. *)

From stdpp Require Import gmap strings list fin_maps.

(** ** Values *)

(** [!v] for a value destructured from [req.body]: [undefined] and the empty
    string are falsy. *)
Definition truthy (v : option string) : bool :=
  match v with
  | Some s => negb (String.eqb s "")
  | None => false
  end.

(** [!channelId] for the route parameter, which is always a string. *)
Definition nonempty (s : string) : bool := negb (String.eqb s "").

(** The object passed to [emit("broadcast", ...)] at line 238:
    [{ channelId, id, username, content, created_at }]. *)
Record Payload := mkPayload {
  p_channelId : string;
  p_id : nat;
  p_username : option string;
  p_content : option string;
  p_created_at : string
}.

(** What a streaming handler passes to [res.write]. *)
Inductive Chunk :=
  | InitChunk                          (* "event: init\n\n" *)
  | DataChunk (data : Payload)         (* `data: ${JSON.stringify(data)}\n\n` *)
  | IdChunk (messageCounter : nat)     (* `id: ${messageCounter}` *)
  | CommentChunk.                      (* ":\n\n" *)

Definition nl : string := String (Ascii.ascii_of_nat 10) EmptyString.

Section Wire.
(** [JSON.stringify] and the decimal rendering of a number belong to the
    runtime. *)
Variable stringify : Payload → string.
Variable decimal : nat → string.

Definition chunk_text (c : Chunk) : string :=
  match c with
  | InitChunk => "event: init" +:+ nl +:+ nl
  | DataChunk data => "data: " +:+ stringify data +:+ nl +:+ nl
  | IdChunk n => "id: " +:+ decimal n
  | CommentChunk => ":" +:+ nl +:+ nl
  end.

End Wire.

(** The statements sent through [pool.query]. *)
Inductive Query :=
  | InsertChannel (name : option string)
  | SelectChannels
  | DeleteMessages (channelId : string)
  | DeleteChannelRow (channelId : string)
  | SelectMessages (channelId : string)
  | InsertMessage (content : option string) (channelId : string)
                  (username : option string).

Inductive Body :=
  | JsonMsg (msg : string)
  | JsonChannel (id : nat) (name : option string)
  | JsonChannels (n : nat) (channels : list string)
  | JsonMessages (messages : list string)
  | Text (s : string)
  | ErrBody
  | EmptyBody
  | EventStream (rid : nat).

(** ** The process state *)

(** A value of the map [eventEmitters]; [emitter] is a reference into
    [heap].  A counter is a JavaScript number that starts at 1 and only
    grows by 1; it is modelled as a natural number. *)
Record ChannelData := mkChannelData {
  emitter : nat;
  messageCounter : nat
}.

(** An [EventEmitter] object: its listeners per event name, in the order
    they were added.  A listener is named by the request that created it. *)
Record EventEmitter := mkEmitter {
  on_broadcast : list nat;
  on_close : list nat
}.

(** One [GET /events/:channelId] request that reached the streaming branch:
    the chunks written to its [res] (oldest first), whether its client has
    gone, and the local variables its listeners capture.  [messageCounter]
    is a [let] of the request, captured by its broadcast listener only. *)
Record Stream := mkStream {
  s_written : list Chunk;
  s_gone : bool;
  s_channelId : string;
  s_emitter : nat;
  s_messageCounter : nat;
  s_intervalId : nat
}.

(** A timer made by [setInterval]. *)
Record Interval := mkInterval {
  i_owner : nat;
  i_delay : N;
  i_cleared : bool
}.

Record State := mkState {
  eventEmitters : gmap string ChannelData;
  heap : list EventEmitter;
  streams : list Stream;
  intervals : list Interval;
  pool : list Query
}.

Definition init : State := mkState ∅ [] [] [] [].

Definition set_eventEmitters (f : gmap string ChannelData → gmap string ChannelData)
    (s : State) : State :=
  mkState (f (eventEmitters s)) (heap s) (streams s) (intervals s) (pool s).
Definition set_heap (f : list EventEmitter → list EventEmitter) (s : State) : State :=
  mkState (eventEmitters s) (f (heap s)) (streams s) (intervals s) (pool s).
Definition set_streams (f : list Stream → list Stream) (s : State) : State :=
  mkState (eventEmitters s) (heap s) (f (streams s)) (intervals s) (pool s).
Definition set_intervals (f : list Interval → list Interval) (s : State) : State :=
  mkState (eventEmitters s) (heap s) (streams s) (f (intervals s)) (pool s).
Definition set_pool (f : list Query → list Query) (s : State) : State :=
  mkState (eventEmitters s) (heap s) (streams s) (intervals s) (f (pool s)).

(** ** Streams, emitters and timers *)

(** [res.write(chunk)] on a stream: the chunk is appended to what the
    handler has written.  The source passes no callback and never inspects
    the connection, so a write to a connection whose client has gone is
    neither noticed nor raised. *)
Definition write (c : Chunk) (st : Stream) : Stream :=
  mkStream (s_written st ++ [c]) (s_gone st) (s_channelId st) (s_emitter st)
           (s_messageCounter st) (s_intervalId st).

Definition res_write (rid : nat) (c : Chunk) (s : State) : State :=
  match streams s !! rid with
  | Some st => set_streams <[rid := write c st]> s
  | None => s
  end.

(** The listener of lines 163-169, as created by request [rid]. *)
Definition broadcast_listener (data : Payload) (rid : nat) (s : State) : State :=
  match streams s !! rid with
  | Some st =>
      let st1 := write (DataChunk data) st in
      let st2 := write (IdChunk (s_messageCounter st1)) st1 in
      let st3 := mkStream (s_written st2) (s_gone st2) (s_channelId st2)
                          (s_emitter st2) (s_messageCounter st2 + 1)
                          (s_intervalId st2) in
      set_eventEmitters
        <[s_channelId st3 := mkChannelData (s_emitter st3) (s_messageCounter st3)]>
        (set_streams <[rid := st3]> s)
  | None => s
  end.

Fixpoint call_listeners (data : Payload) (ls : list nat) (s : State) : State :=
  match ls with
  | [] => s
  | rid :: ls' => call_listeners data ls' (broadcast_listener data rid s)
  end.

(** [emitter.emit("broadcast", data)]: the listeners registered at the time
    of the call run synchronously, in the order they were added. *)
Definition emit_broadcast (e : nat) (data : Payload) (s : State) : State :=
  match heap s !! e with
  | Some em => call_listeners data (on_broadcast em) s
  | None => s
  end.

Definition clearInterval (i : nat) (s : State) : State :=
  match intervals s !! i with
  | Some iv => set_intervals <[i := mkInterval (i_owner iv) (i_delay iv) true]> s
  | None => s
  end.

Fixpoint remove_last (x : nat) (ls : list nat) : list nat :=
  match ls with
  | [] => []
  | y :: ls' =>
      if bool_decide (x ∈ ls') then y :: remove_last x ls'
      else if bool_decide (x = y) then ls' else y :: ls'
  end.

(** [emitter.removeListener("broadcast", f)] removes the most recently added
    entry that is the function object [f] itself.  [Some rid] is the
    broadcast listener of request [rid]; [None] is a function object made at
    the call site, which is identical to no registered listener. *)
Definition removeListener (e : nat) (f : option nat) (s : State) : State :=
  match heap s !! e, f with
  | Some em, Some rid =>
      set_heap <[e := mkEmitter (remove_last rid (on_broadcast em)) (on_close em)]> s
  | _, _ => s
  end.

(** The listener of lines 175-178, as created by request [rid]: it clears
    the request's interval and calls [removeListener] with a new [() => {}]. *)
Definition close_listener (rid : nat) (s : State) : State :=
  match streams s !! rid with
  | Some st => removeListener (s_emitter st) None (clearInterval (s_intervalId st) s)
  | None => s
  end.

(** [emitter.emit("close")].  No handler of the source makes this call. *)
Definition emit_close (e : nat) (s : State) : State :=
  match heap s !! e with
  | Some em => foldl (λ s' rid, close_listener rid s') s (on_close em)
  | None => s
  end.

(** The interval callback of lines 171-173. *)
Definition tick (i : nat) (s : State) : State :=
  match intervals s !! i with
  | Some iv => if i_cleared iv then s else res_write (i_owner iv) CommentChunk s
  | None => s
  end.

(** The client of stream [rid] goes away.  The source registers nothing on
    [req] or [res], so only the connection itself changes. *)
Definition disconnect (rid : nat) (s : State) : State :=
  match streams s !! rid with
  | Some st =>
      set_streams <[rid := mkStream (s_written st) true (s_channelId st)
                                   (s_emitter st) (s_messageCounter st)
                                   (s_intervalId st)]> s
  | None => s
  end.

(** ** Request handlers *)

(** A handler runs against the process state and the response of its
    request.  [response] is what has been sent to the client so far; the
    result [None] stands for an exception (or a rejected promise) leaving
    the current block. *)
Record Ctx := mkCtx {
  st : State;
  response : option (nat * Body)
}.

Definition Handler (A : Type) : Type := Ctx → Ctx * option A.

Definition ret {A} (a : A) : Handler A := λ c, (c, Some a).

Definition bind {A B} (h : Handler A) (k : A → Handler B) : Handler B :=
  λ c, match h c with
       | (c', Some a) => k a c'
       | (c', None) => (c', None)
       end.

Notation "'let*' x ':=' h 'in' k" := (bind h (λ x, k))
  (at level 10, x pattern, h at level 100, k at level 200).
Notation "h ';;' k" := (bind h (λ _, k))
  (at level 100, k at level 200, right associativity).

(** [try { h } catch (err) { k }] *)
Definition try_catch {A} (h k : Handler A) : Handler A :=
  λ c, match h c with
       | (c', None) => k c'
       | r => r
       end.

Definition when (b : bool) (h : Handler unit) : Handler unit :=
  if b then h else ret tt.

Definition get_state : Handler State := λ c, (c, Some (st c)).

Definition modify (f : State → State) : Handler unit :=
  λ c, (mkCtx (f (st c)) (response c), Some tt).

(** [res.status(code).json(body)], [.send(body)], [res.json(body)] and
    [res.writeHead(code, ...)]: the first one of a request sends the
    response head; a later one raises, the head being already sent, and the
    client keeps what it was sent first. *)
Definition respond (code : nat) (b : Body) : Handler unit :=
  λ c, match response c with
       | Some _ => (c, None)
       | None => (mkCtx (st c) (Some (code, b)), Some tt)
       end.

(** [await pool.query(q, ...)]: the statement reaches the database; the
    promise resolves to [r] or is rejected.  [pool] lists the statements of
    one request in the order the request sends them.  Between requests it
    follows the order of the steps: a statement is sent before its [await]
    and the step is taken after the last one, so when requests overlap the
    order in which their statements reach the database need not be the
    order of [pool]. *)
Definition pool_query {R} (q : Query) (result : option R) : Handler R :=
  λ c, (mkCtx (set_pool (λ p, p ++ [q]) (st c)) (response c), result).

(** [POST /channel], lines 57-82. *)
Definition post_channel (name : option string) (db : option nat) : Handler unit :=
  try_catch
    (when (negb (truthy name))
       (respond 400 (JsonMsg "Missing required argument name")) ;;
     let* id := pool_query (InsertChannel name) db in
     respond 200 (JsonChannel id name))
    (respond 500 ErrBody).

(** [GET /channels], lines 84-101. *)
Definition get_channels (db : option (list string)) : Handler unit :=
  try_catch
    (let* rows := pool_query SelectChannels db in
     respond 200 (JsonChannels (length rows) rows))
    (respond 404 ErrBody).

(** [DELETE /channel/:channelId], lines 103-130. *)
Definition delete_channel (channelId : string) (db1 db2 : bool) : Handler unit :=
  try_catch
    (when (nonempty channelId)
       (pool_query (DeleteMessages channelId) (if db1 then Some tt else None) ;;
        pool_query (DeleteChannelRow channelId) (if db2 then Some tt else None) ;;
        modify (set_eventEmitters (delete channelId))) ;;
     respond 204 EmptyBody)
    (respond 500 ErrBody).

(** The hub lookup of lines 151-161: the emitter and the initial value of
    the request's [messageCounter]. *)
Definition lookup_or_create (channelId : string) : Handler (nat * nat) :=
  let* s := get_state in
  match eventEmitters s !! channelId with
  | Some channelData => ret (emitter channelData, messageCounter channelData)
  | None =>
      let e := length (heap s) in
      modify (set_heap (λ h, h ++ [mkEmitter [] []])) ;;
      modify (set_eventEmitters <[channelId := mkChannelData e 1]>) ;;
      ret (e, 1)
  end.

(** [emitter.on(name, listener)] for the two event names the source uses. *)
Definition on_broadcast_add (e rid : nat) (s : State) : State :=
  match heap s !! e with
  | Some em => set_heap <[e := mkEmitter (on_broadcast em ++ [rid]) (on_close em)]> s
  | None => s
  end.

Definition on_close_add (e rid : nat) (s : State) : State :=
  match heap s !! e with
  | Some em => set_heap <[e := mkEmitter (on_broadcast em) (on_close em ++ [rid])]> s
  | None => s
  end.

(** Lines 163-178 for the request that is about to become stream [rid]:
    the broadcast listener, the keepalive interval and the close listener
    are registered, in this order.  The stream starts with the chunk
    written at line 149. *)
Definition attach (channelId : string) (e mc : nat) (s : State) : State :=
  let rid := length (streams s) in
  let intervalId := length (intervals s) in
  on_close_add e rid
    (set_intervals (λ l, l ++ [mkInterval rid 10000 false])
       (on_broadcast_add e rid
          (set_streams (λ l, l ++ [mkStream [InitChunk] false channelId e mc intervalId])
             s))).

(** [GET /events/:channelId], lines 132-182.  [accept] is
    [req.headers.accept]. *)
Definition get_events (accept : option string) (channelId : string) : Handler unit :=
  if bool_decide (accept = Some "text/event-stream") then
    when (negb (nonempty channelId))
      (respond 400 (JsonMsg "Missing required argument channelId")) ;;
    let* s := get_state in
    respond 200 (EventStream (length (streams s))) ;;
    let* hub := lookup_or_create channelId in
    let '(e, mc) := hub in
    modify (attach channelId e mc)
  else
    respond 200 (JsonMsg "OK").

(** [GET /messages/:channelId], lines 184-209. *)
Definition get_messages (channelId : string) (db : option (list string)) : Handler unit :=
  try_catch
    (when (negb (nonempty channelId))
       (respond 400 (JsonMsg "Missing required argument channelId")) ;;
     let* rows := pool_query (SelectMessages channelId) db in
     respond 200 (JsonMessages rows))
    (respond 404 ErrBody).

(** [POST /message/:channelId], lines 211-241.  [db] is the row returned by
    the insert: its [id] and [created_at]. *)
Definition post_message (channelId : string) (content username : option string)
    (db : option (nat * string)) : Handler unit :=
  when (negb (nonempty channelId) || negb (truthy content) || negb (truthy username))
    (respond 400 (JsonMsg "Missing required argument (channelId, content or username)")) ;;
  let* row := pool_query (InsertMessage content channelId username) db in
  let '(id, created_at) := row in
  let* s := get_state in
  let channelData := eventEmitters s !! channelId in
  let emitter := emitter <$> channelData in
  when (bool_decide (emitter = None)) (respond 404 (Text "Channel not found")) ;;
  match emitter with
  | Some e => modify (emit_broadcast e (mkPayload channelId id username content created_at))
  | None => ret tt
  end ;;
  respond 201 (JsonMsg "Chat message posted").

(** ** The server as a transition system *)

Inductive Event :=
  | PostChannel (name : option string) (db : option nat)
  | GetChannels (db : option (list string))
  | DeleteChannel (channelId : string) (db1 db2 : bool)
  | GetEvents (accept : option string) (channelId : string)
  | GetMessages (channelId : string) (db : option (list string))
  | PostMessage (channelId : string) (content username : option string)
                (db : option (nat * string))
  | Tick (intervalId : nat)
  | Disconnect (rid : nat).

(** What the client of a request observes: the response it was sent, if
    any, and whether the handler ended with an uncaught exception. *)
Record Reply := mkReply {
  sent : option (nat * Body);
  threw : bool
}.

Definition serve (h : Handler unit) (s : State) : State * Reply :=
  match h (mkCtx s None) with
  | (c, r) => (st c, mkReply (response c) (bool_decide (r = None)))
  end.

Definition no_reply : Reply := mkReply None false.

Definition step (s : State) (ev : Event) : State * Reply :=
  match ev with
  | PostChannel name db => serve (post_channel name db) s
  | GetChannels db => serve (get_channels db) s
  | DeleteChannel channelId db1 db2 => serve (delete_channel channelId db1 db2) s
  | GetEvents accept channelId => serve (get_events accept channelId) s
  | GetMessages channelId db => serve (get_messages channelId db) s
  | PostMessage channelId content username db =>
      serve (post_message channelId content username db) s
  | Tick i => (tick i s, no_reply)
  | Disconnect rid => (disconnect rid s, no_reply)
  end.

Definition run (s : State) (evs : list Event) : State :=
  foldl (λ s' ev, fst (step s' ev)) s evs.

Definition reachable (s : State) : Prop := ∃ evs, s = run init evs.

Definition sse : option string := Some "text/event-stream".

(** ** Vocabulary of the statements *)

Definition log_query (q : Query) (s : State) : State := set_pool (λ p, p ++ [q]) s.

(** What the broadcast listener does to its own stream: two chunks are
    written and the captured counter goes up by one. *)
Definition deliver (data : Payload) (st : Stream) : Stream :=
  mkStream (s_written st ++ [DataChunk data; IdChunk (s_messageCounter st)])
           (s_gone st) (s_channelId st) (s_emitter st)
           (s_messageCounter st + 1) (s_intervalId st).

(** Stream [rid] belongs to channel [c], listens on emitter [e] and its
    captured counter is [m]. *)
Definition attached (s : State) (c : string) (e m rid : nat) : Prop :=
  ∃ st, streams s !! rid = Some st ∧
        s_channelId st = c ∧ s_emitter st = e ∧ s_messageCounter st = m.

(** Every entry of [eventEmitters] points to an emitter of the heap with at
    least one broadcast listener, and each of these listeners belongs to the
    entry's channel, refers to the entry's emitter and holds the entry's
    counter in its captured [messageCounter].  No listener is registered
    twice, and a listener is registered on the emitter its request
    captured. *)
Record Inv (s : State) : Prop := mkInv {
  inv_hub : ∀ c cd, eventEmitters s !! c = Some cd →
    ∃ em, heap s !! emitter cd = Some em ∧ on_broadcast em ≠ [] ∧
          Forall (attached s c (emitter cd) (messageCounter cd)) (on_broadcast em);
  inv_listeners : ∀ e em, heap s !! e = Some em →
    NoDup (on_broadcast em) ∧
    Forall (λ rid, ∃ st, streams s !! rid = Some st ∧ s_emitter st = e) (on_broadcast em)
}.

(** [s'] keeps every stream of [s] with the same captured variables. *)
Definition keeps_streams (s s' : State) : Prop :=
  ∀ r st, streams s !! r = Some st →
    ∃ st', streams s' !! r = Some st' ∧ s_channelId st' = s_channelId st ∧
           s_emitter st' = s_emitter st ∧ s_messageCounter st' = s_messageCounter st.

(** The registry after a step, entry by entry. *)
Definition subscribes (c : string) (ev : Event) : bool :=
  match ev with
  | GetEvents accept c' => bool_decide (accept = sse) && nonempty c' && bool_decide (c' = c)
  | _ => false
  end.

Definition deletes (c : string) (ev : Event) : bool :=
  match ev with
  | DeleteChannel c' db1 db2 => nonempty c' && db1 && db2 && bool_decide (c' = c)
  | _ => false
  end.

(** The step emits "broadcast" on the hub of [c]. *)
Definition emits_on (c : string) (s : State) (ev : Event) : bool :=
  match ev with
  | PostMessage c' _ _ (Some _) =>
      bool_decide (c' = c) && bool_decide (is_Some (eventEmitters s !! c))
  | _ => false
  end.

(** The number of publishes on the hub that [c] has after [evs], counted
    from the creation of that hub; 0 while [c] has no hub. *)
Fixpoint published (c : string) (s : State) (evs : list Event) (n : nat) : nat :=
  match evs with
  | [] => n
  | ev :: evs' =>
      let s' := fst (step s ev) in
      published c s' evs'
        (if bool_decide (eventEmitters s' !! c = None) then 0
         else if emits_on c s ev then S n else n)
  end.

Definition counter_is (c : string) (s : State) (n : nat) : Prop :=
  match eventEmitters s !! c with
  | Some cd => messageCounter cd = n + 1
  | None => n = 0
  end.

Definition two_subscribers : State :=
  run init [GetEvents sse "1"; GetEvents sse "1"].

Definition is_comment (c : Chunk) : bool :=
  match c with CommentChunk => true | _ => false end.

(** The chunks written to a stream, keepalive comments left out. *)
Definition deliveries (st : Stream) : list Chunk :=
  filter (λ c, is_comment c = false) (s_written st).

(** The chunks that the step [ev] taken in [s] writes to stream [rid] as a
    delivery. *)
Definition frames_for (s : State) (ev : Event) (rid : nat) : list Chunk :=
  match ev with
  | PostMessage c content username (Some (id, created_at)) =>
      match eventEmitters s !! c with
      | Some cd =>
          match heap s !! emitter cd with
          | Some em =>
              if bool_decide (rid ∈ on_broadcast em)
              then [DataChunk (mkPayload c id username content created_at);
                    IdChunk (messageCounter cd)]
              else []
          | None => []
          end
      | None => []
      end
  | _ => []
  end.

(** No hub of the registry uses emitter [e]. *)
Definition orphan (s : State) (e : nat) : Prop :=
  ∀ c cd, eventEmitters s !! c = Some cd → emitter cd ≠ e.

(** The payloads posted on [c] before the first deletion of [c]. *)
Fixpoint posted_while_subscribed (c : string) (evs : list Event) : list Payload :=
  match evs with
  | [] => []
  | ev :: evs' =>
      if deletes c ev then []
      else
        match ev with
        | PostMessage c' content username (Some (id, created_at)) =>
            if bool_decide (c' = c)
            then mkPayload c id username content created_at
                   :: posted_while_subscribed c evs'
            else posted_while_subscribed c evs'
        | _ => posted_while_subscribed c evs'
        end
  end.

(** The delivery chunks of consecutive publishes, the first one with id
    [k]. *)
Fixpoint numbered (k : nat) (ps : list Payload) : list Chunk :=
  match ps with
  | [] => []
  | p :: ps' => DataChunk p :: IdChunk k :: numbered (S k) ps'
  end.

Definition late_evs : list Event :=
  [GetEvents sse "1"; PostMessage "1" (Some "hi") (Some "alice") (Some (7, "t0"))].

Definition late_evs' : list Event :=
  [PostMessage "1" (Some "bye") (Some "bob") (Some (8, "t1"));
   DeleteChannel "1" true true;
   PostMessage "1" (Some "late") (Some "bob") (Some (9, "t2"))].

(** Following the spec's words: at least one subscribe on [c] has occurred,
    and no deletion of [c] has occurred since. *)
Definition subscribed_since_removal (c : string) (evs : list Event) : Prop :=
  ∃ evs1 ev evs2, evs = evs1 ++ ev :: evs2 ∧ subscribes c ev = true ∧
                  Forall (λ ev', deletes c ev' = false) evs2.

Definition one_gone : State :=
  run init [GetEvents sse "1"; GetEvents sse "1"; Disconnect 0].

Definition streaming : State := run init [GetEvents sse "1"].

(** ** Vocabulary of the further properties *)

(** The registry and heap right after lines 158-160 have run for a channel
    without hub. *)
Definition new_hub (c : string) (s : State) : State :=
  set_eventEmitters <[c := mkChannelData (length (heap s)) 1]>
    (set_heap (λ h, h ++ [mkEmitter [] []]) s).

(** [st'] is a later state of the stream [st]: more chunks after the ones
    already written, the same captured constants, a counter that has not
    gone down. *)
Definition extends (st st' : Stream) : Prop :=
  s_written st `prefix_of` s_written st' ∧
  s_channelId st' = s_channelId st ∧ s_emitter st' = s_emitter st ∧
  s_intervalId st' = s_intervalId st ∧ s_messageCounter st ≤ s_messageCounter st'.

Definition grows (s s' : State) : Prop :=
  ∀ rid st, streams s !! rid = Some st →
    ∃ st', streams s' !! rid = Some st' ∧ extends st st'.

(** Streams and timers are created in pairs: stream [i] owns timer [i],
    which has the period of line 173 and has not been cleared. *)
Definition timers_paired (s : State) : Prop :=
  length (intervals s) = length (streams s) ∧
  (∀ i st, streams s !! i = Some st → s_intervalId st = i) ∧
  (∀ i, i < length (streams s) → intervals s !! i = Some (mkInterval i 10000 false)).

(** Every stream is listed, as broadcast and as close listener, on the
    emitter it captured, and every hub points into the heap. *)
Definition listeners_complete (s : State) : Prop :=
  (∀ c cd, eventEmitters s !! c = Some cd → emitter cd < length (heap s)) ∧
  (∀ rid st, streams s !! rid = Some st →
     ∃ em, heap s !! s_emitter st = Some em ∧ rid ∈ on_broadcast em) ∧
  (∀ e em, heap s !! e = Some em → on_close em = on_broadcast em).

(** The state with every connection taken as live. *)
Definition forget_gone (st : Stream) : Stream :=
  mkStream (s_written st) false (s_channelId st) (s_emitter st)
           (s_messageCounter st) (s_intervalId st).

Definition forget (s : State) : State := set_streams (fmap forget_gone) s.

Definition is_request (ev : Event) : bool :=
  match ev with Disconnect _ => false | _ => true end.

(** A state change that creates no stream, no timer and no emitter and
    registers no listener: the streams of [s'] are those of [s], each one
    extended. *)
Definition quiet (s s' : State) : Prop :=
  intervals s' = intervals s ∧ heap s' = heap s ∧
  length (streams s') = length (streams s) ∧ grows s s'.

(** No handler of the run [evs] from [s] ends with an uncaught exception. *)
Fixpoint live (s : State) (evs : list Event) : Prop :=
  match evs with
  | [] => True
  | ev :: evs' => threw (snd (step s ev)) = false ∧ live (fst (step s ev)) evs'
  end.

(** The timer [iv] once [clearInterval] has been called on it. *)
Definition cleared (iv : Interval) : Interval :=
  mkInterval (i_owner iv) (i_delay iv) true.

(** All the fields of a [POST /message] are there. *)
Definition complete (c : string) (content username : option string) : bool :=
  nonempty c && truthy content && truthy username.

Definition two_channels : State :=
  run init [GetEvents sse "1"; GetEvents sse "2"].

(** ** The state after each kind of request *)

Lemma step_post_message s c content username db :
  fst (step s (PostMessage c content username db)) =
  match db with
  | Some (id, created_at) =>
      match eventEmitters s !! c with
      | Some cd => emit_broadcast (emitter cd) (mkPayload c id username content created_at)
                     (log_query (InsertMessage content c username) s)
      | None => log_query (InsertMessage content c username) s
      end
  | None => log_query (InsertMessage content c username) s
  end.
Proof.
  unfold step, serve, post_message, bind, when, respond, pool_query, get_state,
    modify, ret, log_query.
  destruct db as [[id created_at]|];
    destruct (negb (nonempty c) || negb (truthy content) || negb (truthy username));
    simpl; try reflexivity;
    destruct (eventEmitters s !! c) as [cd|]; reflexivity.
Qed.

Lemma step_get_events_stream s c :
  nonempty c = true →
  fst (step s (GetEvents sse c)) =
  match eventEmitters s !! c with
  | Some cd => attach c (emitter cd) (messageCounter cd) s
  | None =>
      attach c (length (heap s)) 1
        (set_eventEmitters <[c := mkChannelData (length (heap s)) 1]>
           (set_heap (λ h, h ++ [mkEmitter [] []]) s))
  end.
Proof.
  intros Hc. unfold step, serve, get_events, sse.
  rewrite bool_decide_eq_true_2 by reflexivity.
  unfold lookup_or_create, bind, when, respond, get_state, modify, ret.
  rewrite Hc. simpl.
  destruct (eventEmitters s !! c) as [cd|]; reflexivity.
Qed.

Lemma step_get_events_empty s accept :
  fst (step s (GetEvents accept "")) = s.
Proof.
  unfold step, serve, get_events.
  case_bool_decide; reflexivity.
Qed.

Lemma step_get_events_plain s accept c :
  accept ≠ sse → fst (step s (GetEvents accept c)) = s.
Proof.
  intros Hacc. unfold step, serve, get_events.
  rewrite bool_decide_eq_false_2 by exact Hacc. reflexivity.
Qed.

Lemma step_delete_channel s c db1 db2 :
  fst (step s (DeleteChannel c db1 db2)) =
  if nonempty c then
    if db1 then
      if db2 then
        set_eventEmitters (delete c)
          (log_query (DeleteChannelRow c) (log_query (DeleteMessages c) s))
      else log_query (DeleteChannelRow c) (log_query (DeleteMessages c) s)
    else log_query (DeleteMessages c) s
  else s.
Proof.
  unfold step, serve, delete_channel, try_catch, bind, when, respond, pool_query,
    modify, ret, log_query.
  destruct (nonempty c), db1, db2; reflexivity.
Qed.

Lemma step_post_channel s name db :
  fst (step s (PostChannel name db)) = log_query (InsertChannel name) s.
Proof.
  unfold step, serve, post_channel, try_catch, bind, when, respond, pool_query,
    ret, log_query.
  destruct (truthy name), db; reflexivity.
Qed.

Lemma step_get_channels s db :
  fst (step s (GetChannels db)) = log_query SelectChannels s.
Proof.
  unfold step, serve, get_channels, try_catch, bind, respond, pool_query, log_query.
  destruct db; reflexivity.
Qed.

Lemma step_get_messages s c db :
  fst (step s (GetMessages c db)) = log_query (SelectMessages c) s.
Proof.
  unfold step, serve, get_messages, try_catch, bind, when, respond, pool_query,
    ret, log_query.
  destruct (nonempty c), db; reflexivity.
Qed.

(** ** One publish, listener by listener *)

Lemma broadcast_listener_eq data rid s st :
  streams s !! rid = Some st →
  broadcast_listener data rid s =
  set_eventEmitters
    <[s_channelId st := mkChannelData (s_emitter st) (s_messageCounter st + 1)]>
    (set_streams <[rid := deliver data st]> s).
Proof.
  intros Hst. unfold broadcast_listener, deliver, write. rewrite Hst. simpl.
  by rewrite <- app_assoc.
Qed.

Lemma call_listeners_spec data c e m ls : ∀ s,
  NoDup ls → Forall (attached s c e m) ls →
  heap (call_listeners data ls s) = heap s ∧
  intervals (call_listeners data ls s) = intervals s ∧
  pool (call_listeners data ls s) = pool s ∧
  eventEmitters (call_listeners data ls s) =
    (if ls is [] then eventEmitters s
     else <[c := mkChannelData e (m + 1)]> (eventEmitters s)) ∧
  length (streams (call_listeners data ls s)) = length (streams s) ∧
  ∀ rid, streams (call_listeners data ls s) !! rid =
         if bool_decide (rid ∈ ls) then deliver data <$> streams s !! rid
         else streams s !! rid.
Proof.
  induction ls as [|r ls IH]; intros s Hnd Hall.
  - simpl. repeat split; try done.
  - apply NoDup_cons in Hnd as [Hr Hnd].
    apply Forall_cons in Hall as [(st & Hst & Hc & He & Hm) Hall].
    simpl. rewrite (broadcast_listener_eq _ _ _ _ Hst). rewrite Hc, He, Hm.
    set (s1 := set_eventEmitters _ _).
    assert (Hother : ∀ r', r' ≠ r → streams s1 !! r' = streams s !! r').
    { intros r' Hne. subst s1. simpl. by rewrite list_lookup_insert_ne. }
    assert (Hall1 : Forall (attached s1 c e m) ls).
    { apply Forall_forall. intros r' Hr'.
      rewrite Forall_forall in Hall. destruct (Hall r' Hr') as (st' & ? & ?).
      exists st'. split; [|done]. rewrite Hother; [done|]. intros ->. done. }
    destruct (IH s1 Hnd Hall1) as (Hh & Hi & Hp & Hee & Hlen & Hlk).
    repeat split.
    + by rewrite Hh.
    + by rewrite Hi.
    + by rewrite Hp.
    + rewrite Hee. destruct ls; [done|]. subst s1. simpl.
      by rewrite insert_insert_eq.
    + rewrite Hlen. subst s1. simpl. by rewrite length_insert.
    + intros rid. rewrite Hlk.
      destruct (decide (rid = r)) as [->|Hne].
      * rewrite bool_decide_eq_false_2 by done.
        rewrite bool_decide_eq_true_2 by apply list_elem_of_here.
        subst s1. simpl. rewrite list_lookup_insert_eq.
        -- rewrite Hst. simpl. unfold deliver. by rewrite Hm.
        -- by eapply lookup_lt_Some.
      * rewrite (Hother _ Hne).
        destruct (decide (rid ∈ ls)) as [Hin|Hin].
        -- rewrite !bool_decide_eq_true_2; [done| |done]. by apply list_elem_of_further.
        -- rewrite !bool_decide_eq_false_2; [done| |done].
           intros [?|?]%elem_of_cons; done.
Qed.

(** ** The invariant of the registry *)

Lemma attached_keeps s s' c e m r :
  keeps_streams s s' → attached s c e m r → attached s' c e m r.
Proof.
  intros Hk (st & Hst & Hc & He & Hm).
  destruct (Hk r st Hst) as (st' & Hst' & Hc' & He' & Hm').
  exists st'. by rewrite Hc', He', Hm'.
Qed.

Lemma Inv_frame s s' :
  eventEmitters s' = eventEmitters s → heap s' = heap s →
  keeps_streams s s' → Inv s → Inv s'.
Proof.
  intros Hee Hh Hk [Hhub Hls]. split.
  - intros c cd Hc. rewrite Hee in Hc. destruct (Hhub c cd Hc) as (em & Hem & Hne & Hall).
    exists em. rewrite Hh. repeat split; [done..|].
    eapply Forall_impl; [exact Hall|]. intros r. by apply attached_keeps.
  - intros e em Hem. rewrite Hh in Hem. destruct (Hls e em Hem) as [Hnd Hall].
    split; [done|]. eapply Forall_impl; [exact Hall|].
    intros r (st & Hst & He). destruct (Hk r st Hst) as (st' & ? & ? & He' & ?).
    exists st'. split; [done|]. by rewrite He'.
Qed.

Lemma keeps_streams_refl s s' : streams s' = streams s → keeps_streams s s'.
Proof. intros Heq r st Hst. exists st. by rewrite Heq. Qed.

Lemma keeps_streams_app s s' x : streams s' = streams s ++ [x] → keeps_streams s s'.
Proof.
  intros Heq r st Hst. exists st. rewrite Heq. split; [|done].
  by apply lookup_app_l_Some.
Qed.

Lemma Inv_init : Inv init.
Proof. split; intros ? ? H; simpl in H; by rewrite ?lookup_empty in H. Qed.

Lemma Inv_log_query q s : Inv s → Inv (log_query q s).
Proof. apply Inv_frame; [done..|]. by apply keeps_streams_refl. Qed.

(** Two channels never share an emitter. *)
Lemma Inv_emitter_inj s c1 c2 cd1 cd2 :
  Inv s → eventEmitters s !! c1 = Some cd1 → eventEmitters s !! c2 = Some cd2 →
  emitter cd1 = emitter cd2 → c1 = c2.
Proof.
  intros [Hhub _] H1 H2 Heq.
  destruct (Hhub _ _ H1) as (em1 & Hem1 & Hne1 & Hall1).
  destruct (Hhub _ _ H2) as (em2 & Hem2 & _ & Hall2).
  rewrite Heq in Hem1. rewrite Hem1 in Hem2. injection Hem2 as <-.
  destruct (on_broadcast em1) as [|r ls]; [done|].
  apply Forall_cons in Hall1 as [(st1 & Hst1 & Hc1 & _) _].
  apply Forall_cons in Hall2 as [(st2 & Hst2 & Hc2 & _) _].
  rewrite Hst1 in Hst2. injection Hst2 as <-. by rewrite <- Hc1, <- Hc2.
Qed.

Lemma Inv_emitter_lt s c cd :
  Inv s → eventEmitters s !! c = Some cd → emitter cd < length (heap s).
Proof.
  intros [Hhub _] Hc. destruct (Hhub _ _ Hc) as (em & Hem & _).
  by eapply lookup_lt_Some.
Qed.

Lemma attach_eq c e mc s em :
  heap s !! e = Some em →
  attach c e mc s =
  mkState (eventEmitters s)
    (<[e := mkEmitter (on_broadcast em ++ [length (streams s)])
                      (on_close em ++ [length (streams s)])]> (heap s))
    (streams s ++ [mkStream [InitChunk] false c e mc (length (intervals s))])
    (intervals s ++ [mkInterval (length (streams s)) 10000 false])
    (pool s).
Proof.
  intros Hem. unfold attach, on_close_add, on_broadcast_add. simpl.
  rewrite Hem. simpl. rewrite list_lookup_insert_eq by by eapply lookup_lt_Some.
  simpl. unfold set_heap. simpl. by rewrite list_insert_insert_eq.
Qed.

Lemma Inv_attach s c e mc em :
  Inv s → heap s !! e = Some em →
  (∀ c0 cd0, eventEmitters s !! c0 = Some cd0 → emitter cd0 = e →
             c0 = c ∧ messageCounter cd0 = mc) →
  (∀ r, r ∈ on_broadcast em → r < length (streams s)) →
  Inv (attach c e mc s).
Proof.
  intros [Hhub Hls] Hem Hown Hlt. rewrite (attach_eq _ _ _ _ _ Hem).
  set (s' := mkState _ _ _ _ _).
  assert (Hk : keeps_streams s s') by by eapply keeps_streams_app.
  assert (He : e < length (heap s)) by by eapply lookup_lt_Some.
  assert (Hnew : streams s' !! length (streams s) =
                 Some (mkStream [InitChunk] false c e mc (length (intervals s)))).
  { subst s'. simpl. by apply list_lookup_middle. }
  split.
  - intros c0 cd0 Hc0. simpl in Hc0.
    destruct (Hhub _ _ Hc0) as (em0 & Hem0 & Hne0 & Hall0).
    destruct (decide (emitter cd0 = e)) as [Heq|Hneq].
    + destruct (Hown _ _ Hc0 Heq) as [-> Hmc].
      rewrite Heq in *. rewrite Hem in Hem0. injection Hem0 as <-.
      eexists. split; [subst s'; simpl; by apply list_lookup_insert_eq|].
      simpl. split; [by destruct (on_broadcast em)|].
      apply Forall_app. split.
      * eapply Forall_impl; [exact Hall0|]. intros r. by apply attached_keeps.
      * apply Forall_singleton. eexists. split; [exact Hnew|]. by rewrite Hmc.
    + exists em0. split; [subst s'; simpl; by rewrite list_lookup_insert_ne|].
      split; [done|].
      eapply Forall_impl; [exact Hall0|]. intros r. by apply attached_keeps.
  - intros e0 em0 Hem0. subst s'. simpl in Hem0.
    destruct (decide (e0 = e)) as [->|Hneq].
    + rewrite list_lookup_insert_eq in Hem0 by done. injection Hem0 as <-. simpl.
      destruct (Hls _ _ Hem) as [Hnd Hall]. split.
      * apply NoDup_app. split; [done|]. split; [|apply NoDup_singleton].
        intros r Hr ->%list_elem_of_singleton. specialize (Hlt _ Hr). lia.
      * apply Forall_app. split.
        -- eapply Forall_impl; [exact Hall|]. intros r (st0 & Hst0 & He0).
           destruct (Hk r st0 Hst0) as (st' & ? & ? & He' & ?).
           exists st'. split; [done|]. by rewrite He'.
        -- apply Forall_singleton. eexists. split; [exact Hnew|]. done.
    + rewrite list_lookup_insert_ne in Hem0 by done.
      destruct (Hls _ _ Hem0) as [Hnd Hall]. split; [done|].
      eapply Forall_impl; [exact Hall|]. intros r (st0 & Hst0 & He0).
      destruct (Hk r st0 Hst0) as (st' & ? & ? & He' & ?).
      exists st'. split; [done|]. by rewrite He'.
Qed.

Lemma Inv_listener_lt s e em r :
  Inv s → heap s !! e = Some em → r ∈ on_broadcast em → r < length (streams s).
Proof.
  intros [_ Hls] Hem Hr. destruct (Hls _ _ Hem) as [_ Hall].
  rewrite Forall_forall in Hall. destruct (Hall r Hr) as (st0 & Hst0 & _).
  by eapply lookup_lt_Some.
Qed.

Lemma Inv_open_existing s c cd :
  Inv s → eventEmitters s !! c = Some cd →
  Inv (attach c (emitter cd) (messageCounter cd) s).
Proof.
  intros HI Hc. destruct (inv_hub _ HI _ _ Hc) as (em & Hem & _).
  eapply Inv_attach; [done..| |].
  - intros c0 cd0 Hc0 Heq.
    assert (c0 = c) as -> by by eapply Inv_emitter_inj.
    rewrite Hc in Hc0. by injection Hc0 as <-.
  - intros r. by eapply Inv_listener_lt.
Qed.

Lemma Inv_open_new s c :
  Inv s → eventEmitters s !! c = None →
  Inv (attach c (length (heap s)) 1
         (set_eventEmitters <[c := mkChannelData (length (heap s)) 1]>
            (set_heap (λ h, h ++ [mkEmitter [] []]) s))).
Proof.
  intros HI Hc.
  erewrite attach_eq; [|simpl; by apply list_lookup_middle]. simpl.
  assert (Hlen : length (heap s) < length (heap s ++ [mkEmitter [] []])).
  { rewrite length_app. simpl. lia. }
  split.
  - intros c0 cd0 Hc0. simpl in Hc0.
    destruct (decide (c0 = c)) as [->|Hneq].
    + rewrite lookup_insert_eq in Hc0. injection Hc0 as <-. simpl.
      eexists. split; [by rewrite list_lookup_insert_eq by exact Hlen|].
      simpl. split; [done|]. apply Forall_singleton. eexists.
      split; [simpl; by apply list_lookup_middle|done].
    + rewrite lookup_insert_ne in Hc0 by done.
      destruct (inv_hub _ HI _ _ Hc0) as (em0 & Hem0 & Hne0 & Hall0).
      assert (emitter cd0 < length (heap s)) by by eapply lookup_lt_Some.
      exists em0. simpl. split.
      { rewrite list_lookup_insert_ne by lia. by apply lookup_app_l_Some. }
      split; [done|]. eapply Forall_impl; [exact Hall0|].
      intros r (st0 & Hst0 & ?). exists st0. split; [|done]. simpl.
      by apply lookup_app_l_Some.
  - intros e0 em0 Hem0. simpl in Hem0.
    destruct (decide (e0 = length (heap s))) as [->|Hneq].
    + rewrite list_lookup_insert_eq in Hem0 by done. injection Hem0 as <-. simpl.
      split; [apply NoDup_singleton|]. apply Forall_singleton.
      eexists. split; [simpl; by apply list_lookup_middle|done].
    + rewrite list_lookup_insert_ne in Hem0 by done.
      assert (e0 < length (heap s)).
      { apply lookup_lt_Some in Hem0. rewrite length_app in Hem0. simpl in Hem0. lia. }
      rewrite lookup_app_l in Hem0 by done.
      destruct (inv_listeners _ HI _ _ Hem0) as [Hnd Hall]. split; [done|].
      eapply Forall_impl; [exact Hall|].
      intros r (st0 & Hst0 & ?). exists st0. split; [|done]. simpl.
      by apply lookup_app_l_Some.
Qed.

(** One [emit("broadcast", data)] on the emitter of a registered hub. *)
Lemma emit_hub s c cd em data :
  Inv s → eventEmitters s !! c = Some cd → heap s !! emitter cd = Some em →
  heap (emit_broadcast (emitter cd) data s) = heap s ∧
  intervals (emit_broadcast (emitter cd) data s) = intervals s ∧
  pool (emit_broadcast (emitter cd) data s) = pool s ∧
  eventEmitters (emit_broadcast (emitter cd) data s) =
    <[c := mkChannelData (emitter cd) (messageCounter cd + 1)]> (eventEmitters s) ∧
  length (streams (emit_broadcast (emitter cd) data s)) = length (streams s) ∧
  ∀ rid, streams (emit_broadcast (emitter cd) data s) !! rid =
         if bool_decide (rid ∈ on_broadcast em) then deliver data <$> streams s !! rid
         else streams s !! rid.
Proof.
  intros HI Hc Hem. unfold emit_broadcast. rewrite Hem.
  destruct (inv_hub _ HI _ _ Hc) as (em' & Hem' & Hne & Hall).
  rewrite Hem in Hem'. injection Hem' as <-.
  destruct (inv_listeners _ HI _ _ Hem) as [Hnd _].
  destruct (call_listeners_spec data _ _ _ _ s Hnd Hall)
    as (Hh & Hi & Hp & Hee & Hlen & Hlk).
  repeat split; try done.
  rewrite Hee. by destruct (on_broadcast em).
Qed.

Lemma Inv_emit s c cd data :
  Inv s → eventEmitters s !! c = Some cd →
  Inv (emit_broadcast (emitter cd) data s).
Proof.
  intros HI Hc. destruct (inv_hub _ HI _ _ Hc) as (em & Hem & Hne & Hall).
  destruct (emit_hub _ _ _ _ data HI Hc Hem) as (Hh & _ & _ & Hee & _ & Hlk).
  set (s' := emit_broadcast _ _ _) in *.
  assert (Hemit : ∀ r st0, streams s !! r = Some st0 →
            ∃ st', streams s' !! r = Some st' ∧ s_emitter st' = s_emitter st0).
  { intros r st0 Hst0. rewrite Hlk, Hst0. case_bool_decide; eauto. }
  split.
  - intros c0 cd0 Hc0. rewrite Hee in Hc0. rewrite Hh.
    destruct (decide (c0 = c)) as [->|Hneq].
    + rewrite lookup_insert_eq in Hc0. injection Hc0 as <-. simpl.
      exists em. repeat split; [done..|].
      apply Forall_forall. intros r Hr. rewrite Forall_forall in Hall.
      destruct (Hall r Hr) as (st0 & Hst0 & Hc0 & He0 & Hm0).
      exists (deliver data st0). rewrite Hlk, Hst0, bool_decide_eq_true_2 by done.
      simpl. by rewrite Hm0.
    + rewrite lookup_insert_ne in Hc0 by done.
      destruct (inv_hub _ HI _ _ Hc0) as (em0 & Hem0 & Hne0 & Hall0).
      exists em0. repeat split; [done..|].
      apply Forall_forall. intros r Hr. rewrite Forall_forall in Hall0.
      destruct (Hall0 r Hr) as (st0 & Hst0 & Hrest).
      exists st0. split; [|done]. rewrite Hlk, bool_decide_eq_false_2; [done|].
      intros Hin. rewrite Forall_forall in Hall.
      destruct (Hall r Hin) as (st1 & Hst1 & _ & He1 & _).
      rewrite Hst0 in Hst1. injection Hst1 as <-.
      destruct Hrest as (_ & He0 & _).
      apply Hneq. eapply Inv_emitter_inj; [done..|]. by rewrite <- He0, <- He1.
  - intros e0 em0 Hem0. rewrite Hh in Hem0.
    destruct (inv_listeners _ HI _ _ Hem0) as [Hnd Hall0]. split; [done|].
    eapply Forall_impl; [exact Hall0|]. intros r (st0 & Hst0 & He0).
    destruct (Hemit _ _ Hst0) as (st' & ? & He'). exists st'.
    split; [done|]. by rewrite He'.
Qed.

Lemma Inv_delete s c : Inv s → Inv (set_eventEmitters (delete c) s).
Proof.
  intros [Hhub Hls]. split; [|done].
  intros c0 cd0 Hc0. simpl in Hc0.
  apply lookup_delete_Some in Hc0 as [_ Hc0]. by apply Hhub.
Qed.

Lemma Inv_tick i s : Inv s → Inv (tick i s).
Proof.
  intros HI. unfold tick. destruct (intervals s !! i) as [iv|]; [|done].
  destruct (i_cleared iv); [done|]. unfold res_write.
  destruct (streams s !! i_owner iv) as [st0|] eqn:Hst0; [|done].
  apply (Inv_frame s); [done..| |done].
  intros r st1 Hst1. simpl.
  destruct (decide (r = i_owner iv)) as [->|Hne].
  - rewrite list_lookup_insert_eq by by eapply lookup_lt_Some.
    rewrite Hst0 in Hst1. injection Hst1 as <-. by eexists.
  - rewrite list_lookup_insert_ne by done. by eexists.
Qed.

Lemma Inv_disconnect rid s : Inv s → Inv (disconnect rid s).
Proof.
  intros HI. unfold disconnect.
  destruct (streams s !! rid) as [st0|] eqn:Hst0; [|done].
  apply (Inv_frame s); [done..| |done].
  intros r st1 Hst1. simpl.
  destruct (decide (r = rid)) as [->|Hne].
  - rewrite list_lookup_insert_eq by by eapply lookup_lt_Some.
    rewrite Hst0 in Hst1. injection Hst1 as <-. by eexists.
  - rewrite list_lookup_insert_ne by done. by eexists.
Qed.

Lemma nonempty_false c : nonempty c = false → c = "".
Proof.
  unfold nonempty. intros H. apply negb_false_iff in H. by apply String.eqb_eq.
Qed.

Lemma Inv_step s ev : Inv s → Inv (fst (step s ev)).
Proof.
  intros HI. destruct ev as [name db|db|c db1 db2|accept c|c db|c content username db|i|rid].
  - rewrite step_post_channel. by apply Inv_log_query.
  - rewrite step_get_channels. by apply Inv_log_query.
  - rewrite step_delete_channel.
    destruct (nonempty c), db1, db2; try done; repeat apply Inv_log_query; try done.
    apply Inv_delete. by repeat apply Inv_log_query.
  - destruct (decide (accept = sse)) as [->|Hacc];
      [|by rewrite step_get_events_plain].
    destruct (nonempty c) eqn:Hc.
    + rewrite step_get_events_stream by done.
      destruct (eventEmitters s !! c) as [cd|] eqn:Hcd.
      * by apply Inv_open_existing.
      * by apply Inv_open_new.
    + apply nonempty_false in Hc as ->. by rewrite step_get_events_empty.
  - rewrite step_get_messages. by apply Inv_log_query.
  - rewrite step_post_message.
    destruct db as [[id created_at]|]; [|by apply Inv_log_query].
    destruct (eventEmitters s !! c) as [cd|] eqn:Hcd; [|by apply Inv_log_query].
    eapply Inv_emit; [by apply Inv_log_query|done].
  - by apply Inv_tick.
  - by apply Inv_disconnect.
Qed.

Lemma run_snoc s evs ev : run s (evs ++ [ev]) = fst (step (run s evs) ev).
Proof. unfold run. by rewrite foldl_app. Qed.

Lemma run_cons s ev evs : run s (ev :: evs) = run (fst (step s ev)) evs.
Proof. done. Qed.

Lemma Inv_run s evs : Inv s → Inv (run s evs).
Proof.
  revert s. induction evs as [|ev evs IH]; intros s HI; [done|].
  rewrite run_cons. apply IH. by apply Inv_step.
Qed.

Lemma Inv_reachable s : reachable s → Inv s.
Proof. intros [evs ->]. apply Inv_run, Inv_init. Qed.

(** ** What a step leaves alone *)

Lemma broadcast_listener_frame data rid s :
  heap (broadcast_listener data rid s) = heap s ∧
  intervals (broadcast_listener data rid s) = intervals s ∧
  pool (broadcast_listener data rid s) = pool s.
Proof. unfold broadcast_listener. by destruct (streams s !! rid). Qed.

Lemma call_listeners_frame data ls : ∀ s,
  heap (call_listeners data ls s) = heap s ∧
  intervals (call_listeners data ls s) = intervals s ∧
  pool (call_listeners data ls s) = pool s.
Proof.
  induction ls as [|r ls IH]; intros s; [done|]. simpl.
  destruct (IH (broadcast_listener data r s)) as (-> & -> & ->).
  apply broadcast_listener_frame.
Qed.

Lemma emit_broadcast_frame e data s :
  heap (emit_broadcast e data s) = heap s ∧
  intervals (emit_broadcast e data s) = intervals s ∧
  pool (emit_broadcast e data s) = pool s.
Proof.
  unfold emit_broadcast. destruct (heap s !! e); [|done]. apply call_listeners_frame.
Qed.

Lemma attach_frame c e mc s :
  eventEmitters (attach c e mc s) = eventEmitters s ∧
  streams (attach c e mc s) =
    streams s ++ [mkStream [InitChunk] false c e mc (length (intervals s))] ∧
  intervals (attach c e mc s) =
    intervals s ++ [mkInterval (length (streams s)) 10000 false] ∧
  pool (attach c e mc s) = pool s.
Proof.
  unfold attach, on_close_add, on_broadcast_add. simpl.
  destruct (heap s !! e) as [em|] eqn:Hem; simpl.
  - rewrite list_lookup_insert_eq by by eapply lookup_lt_Some. done.
  - rewrite Hem. done.
Qed.

Lemma step_registry s ev c :
  Inv s →
  eventEmitters (fst (step s ev)) !! c =
  match eventEmitters s !! c with
  | Some cd =>
      if deletes c ev then None
      else if emits_on c s ev
           then Some (mkChannelData (emitter cd) (messageCounter cd + 1))
           else Some cd
  | None => if subscribes c ev then Some (mkChannelData (length (heap s)) 1) else None
  end.
Proof.
  intros HI.
  destruct ev as [name db|db|c' db1 db2|accept c'|c' db|c' content username db|i|rid];
    simpl emits_on; simpl deletes; simpl subscribes.
  - rewrite step_post_channel. simpl. by destruct (eventEmitters s !! c).
  - rewrite step_get_channels. simpl. by destruct (eventEmitters s !! c).
  - rewrite step_delete_channel.
    destruct (nonempty c'), db1, db2; simpl; try by destruct (eventEmitters s !! c).
    rewrite lookup_delete. case_decide as Hd.
    + subst c'. rewrite bool_decide_eq_true_2 by done. by destruct (eventEmitters s !! c).
    + rewrite bool_decide_eq_false_2 by done. by destruct (eventEmitters s !! c).
  - destruct (decide (accept = sse)) as [->|Hacc].
    + rewrite bool_decide_eq_true_2 by done.
      destruct (nonempty c') eqn:Hc'.
      * rewrite step_get_events_stream by done. simpl.
        destruct (eventEmitters s !! c') as [cd'|] eqn:Hcd'.
        -- destruct (attach_frame c' (emitter cd') (messageCounter cd') s) as (-> & _).
           destruct (eventEmitters s !! c) eqn:Hcd; [done|].
           rewrite bool_decide_eq_false_2; [done|]. intros ->. congruence.
        -- match goal with |- eventEmitters (attach ?a ?b ?d ?x) !! _ = _ =>
             destruct (attach_frame a b d x) as (-> & _) end.
           simpl. rewrite lookup_insert. case_decide as Hd.
           ++ subst c'. rewrite Hcd'. by rewrite bool_decide_eq_true_2.
           ++ rewrite bool_decide_eq_false_2 by done. by destruct (eventEmitters s !! c).
      * apply nonempty_false in Hc' as ->. rewrite step_get_events_empty. simpl.
        by destruct (eventEmitters s !! c).
    + rewrite step_get_events_plain by done.
      rewrite bool_decide_eq_false_2 by done. simpl. by destruct (eventEmitters s !! c).
  - rewrite step_get_messages. simpl. by destruct (eventEmitters s !! c).
  - rewrite step_post_message.
    destruct db as [[id created_at]|]; [|simpl; by destruct (eventEmitters s !! c)].
    destruct (eventEmitters s !! c') as [cd'|] eqn:Hcd'.
    + assert (HI' := Inv_log_query (InsertMessage content c' username) s HI).
      destruct (inv_hub _ HI' _ _ Hcd') as (em & Hem & _).
      destruct (emit_hub _ _ _ _ (mkPayload c' id username content created_at)
                  HI' Hcd' Hem) as (_ & _ & _ & -> & _).
      simpl. rewrite lookup_insert. case_decide as Hd.
      * subst c'. rewrite Hcd'. rewrite !bool_decide_eq_true_2; done.
      * rewrite (bool_decide_eq_false_2 (c' = c)) by done. simpl.
        by destruct (eventEmitters s !! c).
    + simpl. destruct (eventEmitters s !! c) eqn:Hcd; [|done].
      rewrite bool_decide_eq_false_2; [done|]. intros ->. congruence.
  - simpl. unfold tick. destruct (intervals s !! i) as [iv|];
      [|by destruct (eventEmitters s !! c)].
    destruct (i_cleared iv); [by destruct (eventEmitters s !! c)|].
    unfold res_write.
    destruct (streams s !! i_owner iv); simpl; by destruct (eventEmitters s !! c).
  - simpl. unfold disconnect.
    destruct (streams s !! rid); simpl; by destruct (eventEmitters s !! c).
Qed.

(** ** Publishing *)

(** A [POST /message] whose insert succeeded, on a channel with a hub: every
    listener of the hub's emitter runs once on its own stream. *)
Lemma publish_delivers s c cd em content username id created_at rid :
  Inv s → eventEmitters s !! c = Some cd → heap s !! emitter cd = Some em →
  rid ∈ on_broadcast em →
  ∃ st, streams s !! rid = Some st ∧ s_messageCounter st = messageCounter cd ∧
        streams (fst (step s (PostMessage c content username (Some (id, created_at)))))
          !! rid = Some (deliver (mkPayload c id username content created_at) st).
Proof.
  intros HI Hc Hem Hr. rewrite step_post_message, Hc.
  assert (HI' := Inv_log_query (InsertMessage content c username) s HI).
  destruct (emit_hub _ _ _ _ (mkPayload c id username content created_at) HI' Hc Hem)
    as (_ & _ & _ & _ & _ & Hlk).
  destruct (inv_hub _ HI _ _ Hc) as (em' & Hem' & _ & Hall).
  rewrite Hem in Hem'. injection Hem' as <-.
  rewrite Forall_forall in Hall. destruct (Hall rid Hr) as (st0 & Hst0 & _ & _ & Hm).
  exists st0. repeat split; [done..|].
  rewrite Hlk, bool_decide_eq_true_2 by done. simpl. by rewrite Hst0.
Qed.

Lemma counter_published c evs : ∀ s n,
  Inv s → counter_is c s n → counter_is c (run s evs) (published c s evs n).
Proof.
  induction evs as [|ev evs IH]; intros s n HI Hn; [done|].
  rewrite run_cons. simpl. apply IH; [by apply Inv_step|].
  unfold counter_is in *. rewrite (step_registry s ev c HI).
  destruct (eventEmitters s !! c) as [cd|] eqn:Hcd.
  - destruct (deletes c ev); [by rewrite bool_decide_eq_true_2|].
    destruct (emits_on c s ev); rewrite bool_decide_eq_false_2 by done; simpl; lia.
  - destruct (subscribes c ev).
    + rewrite bool_decide_eq_false_2 by done.
      destruct ev; simpl; try lia. destruct db; [|lia].
      rewrite andb_comm, bool_decide_eq_false_2; [simpl; lia|].
      rewrite Hcd. by intros [? ?].
    + by rewrite bool_decide_eq_true_2.
Qed.

(** C1: in every reachable state, a publish on the hub of channel [c]
    (a [POST /message/c] whose insert returned a row) makes every subscriber
    in the hub's listener list receive the same two chunks: the data frame
    of the one payload object and the id frame carrying the counter stored
    on the hub when the publish starts; the hub's stored counter is then
    that value plus one. *)
Theorem publish_identical_pair s c cd em content username id created_at rid :
  reachable s →
  eventEmitters s !! c = Some cd → heap s !! emitter cd = Some em →
  rid ∈ on_broadcast em →
  let s' := fst (step s (PostMessage c content username (Some (id, created_at)))) in
  (∃ st, streams s !! rid = Some st ∧
         s_written <$> streams s' !! rid =
         Some (s_written st ++
               [DataChunk (mkPayload c id username content created_at);
                IdChunk (messageCounter cd)])) ∧
  eventEmitters s' !! c = Some (mkChannelData (emitter cd) (messageCounter cd + 1)).
Proof.
  intros Hreach Hc Hem Hr s'. assert (HI := Inv_reachable _ Hreach). split.
  - destruct (publish_delivers s c cd em content username id created_at rid
                HI Hc Hem Hr) as (st0 & Hst0 & Hm & Hst').
    exists st0. split; [done|]. subst s'. rewrite Hst'. simpl. by rewrite Hm.
  - subst s'. rewrite (step_registry _ _ _ HI), Hc. simpl.
    rewrite !bool_decide_eq_true_2; [done|by eexists|done].
Qed.

Lemma publish_identical_pair_witness :
  let s' := fst (step two_subscribers
                   (PostMessage "1" (Some "hi") (Some "alice") (Some (7, "t0")))) in
  (∃ st, streams two_subscribers !! 1 = Some st ∧
         s_written <$> streams s' !! 1 =
         Some (s_written st ++
               [DataChunk (mkPayload "1" 7 (Some "alice") (Some "hi") "t0"); IdChunk 1])) ∧
  eventEmitters s' !! "1" = Some (mkChannelData 0 2).
Proof.
  apply (publish_identical_pair two_subscribers "1" (mkChannelData 0 1)
           (mkEmitter [0; 1] [0; 1]) (Some "hi") (Some "alice") 7 "t0" 1).
  - by eexists.
  - reflexivity.
  - reflexivity.
  - apply list_elem_of_further, list_elem_of_here.
Defined.

(** C2: after any sequence of requests, the counter stored on the hub of
    [c] is one more than the number of publishes made on that hub since it
    was created, so the publish that comes next, the Nth, writes id N to
    every subscriber and leaves N + 1 on the hub. *)
Theorem nth_publish_id evs c cd em content username id created_at rid :
  let s := run init evs in
  let N := S (published c init evs 0) in
  eventEmitters s !! c = Some cd → heap s !! emitter cd = Some em →
  rid ∈ on_broadcast em →
  let s' := fst (step s (PostMessage c content username (Some (id, created_at)))) in
  messageCounter cd = N ∧
  (∃ st, streams s !! rid = Some st ∧
         s_written <$> streams s' !! rid =
         Some (s_written st ++
               [DataChunk (mkPayload c id username content created_at); IdChunk N])) ∧
  messageCounter <$> eventEmitters s' !! c = Some (S N) ∧
  published c init (evs ++ [PostMessage c content username (Some (id, created_at))]) 0 = N.
Proof.
  intros s N Hc Hem Hr s'.
  assert (HI : Inv s) by apply Inv_run, Inv_init.
  assert (Hcnt : messageCounter cd = N).
  { assert (H := counter_published c evs init 0 Inv_init eq_refl).
    unfold counter_is in H. fold s in H. rewrite Hc in H. subst N. lia. }
  split; [done|]. split; [|split].
  - destruct (publish_delivers s c cd em content username id created_at rid
                HI Hc Hem Hr) as (st0 & Hst0 & Hm & Hst').
    exists st0. split; [done|]. subst s'. rewrite Hst'. simpl. by rewrite Hm, Hcnt.
  - subst s'. rewrite (step_registry _ _ _ HI), Hc. simpl.
    rewrite !bool_decide_eq_true_2; [|by eexists|done]. simpl. rewrite Hcnt. f_equal. lia.
  - assert (H := counter_published c
       (evs ++ [PostMessage c content username (Some (id, created_at))]) init 0
       Inv_init eq_refl).
    unfold counter_is in H. rewrite run_snoc in H. fold s in H.
    rewrite (step_registry _ _ _ HI), Hc in H. simpl in H.
    rewrite !bool_decide_eq_true_2 in H; [|by eexists|done]. simpl in H. lia.
Qed.

(** ** What one stream receives *)

Lemma deliveries_deliver data st :
  deliveries (deliver data st) =
  deliveries st ++ [DataChunk data; IdChunk (s_messageCounter st)].
Proof. unfold deliveries, deliver. simpl. by rewrite filter_app. Qed.

Lemma stream_step s ev rid st :
  Inv s → streams s !! rid = Some st →
  ∃ st', streams (fst (step s ev)) !! rid = Some st' ∧
         s_emitter st' = s_emitter st ∧
         deliveries st' = deliveries st ++ frames_for s ev rid.
Proof.
  intros HI Hst.
  assert (Hsame : ∀ s', streams s' = streams s → frames_for s ev rid = [] →
            ∃ st', streams s' !! rid = Some st' ∧ s_emitter st' = s_emitter st ∧
                   deliveries st' = deliveries st ++ frames_for s ev rid).
  { intros s' Heq ->. exists st. by rewrite Heq, app_nil_r. }
  destruct ev as [name db|db|c' db1 db2|accept c'|c' db|c' content username db|i|r].
  - apply Hsame; [|done]. by rewrite step_post_channel.
  - apply Hsame; [|done]. by rewrite step_get_channels.
  - apply Hsame; [|done]. rewrite step_delete_channel.
    by destruct (nonempty c'), db1, db2.
  - destruct (decide (accept = sse)) as [->|Hacc];
      [|apply Hsame; [by rewrite step_get_events_plain|done]].
    destruct (nonempty c') eqn:Hc'.
    + exists st. simpl frames_for. rewrite app_nil_r. split; [|done].
      rewrite step_get_events_stream by done.
      destruct (eventEmitters s !! c') as [cd'|];
        match goal with |- streams (attach ?a ?b ?d ?x) !! _ = _ =>
          destruct (attach_frame a b d x) as (_ & -> & _) end;
        by apply lookup_app_l_Some.
    + apply nonempty_false in Hc' as ->.
      apply Hsame; [by rewrite step_get_events_empty|done].
  - apply Hsame; [|done]. by rewrite step_get_messages.
  - rewrite step_post_message.
    destruct db as [[id created_at]|]; [|by apply Hsame].
    simpl frames_for.
    destruct (eventEmitters s !! c') as [cd'|] eqn:Hcd'; [|by exists st; rewrite app_nil_r].
    assert (HI' := Inv_log_query (InsertMessage content c' username) s HI).
    destruct (inv_hub _ HI _ _ Hcd') as (em & Hem & _ & Hall).
    rewrite Hem.
    destruct (emit_hub _ _ _ _ (mkPayload c' id username content created_at)
                HI' Hcd' Hem) as (_ & _ & _ & _ & _ & Hlk).
    rewrite Hlk. simpl. rewrite Hst. case_bool_decide as Hin.
    + rewrite Forall_forall in Hall.
      destruct (Hall rid Hin) as (st0 & Hst0 & _ & _ & Hm).
      rewrite Hst in Hst0. injection Hst0 as <-.
      eexists. split; [done|]. split; [done|].
      by rewrite deliveries_deliver, Hm.
    + exists st. by rewrite app_nil_r.
  - simpl. unfold tick. destruct (intervals s !! i) as [iv|]; [|by apply Hsame].
    destruct (i_cleared iv); [by apply Hsame|]. unfold res_write.
    destruct (streams s !! i_owner iv) as [st0|] eqn:Hst0; [|by apply Hsame].
    simpl. rewrite app_nil_r. destruct (decide (rid = i_owner iv)) as [->|Hne].
    + rewrite list_lookup_insert_eq by by eapply lookup_lt_Some.
      rewrite Hst in Hst0. injection Hst0 as <-.
      eexists. split; [done|]. split; [done|].
      unfold deliveries, write. simpl. by rewrite filter_app, app_nil_r.
    + rewrite list_lookup_insert_ne by done. by exists st.
  - simpl. unfold disconnect.
    destruct (streams s !! r) as [st0|] eqn:Hst0; [|by apply Hsame].
    simpl. rewrite app_nil_r. destruct (decide (rid = r)) as [->|Hne].
    + rewrite list_lookup_insert_eq by by eapply lookup_lt_Some.
      rewrite Hst in Hst0. injection Hst0 as <-. by eexists.
    + rewrite list_lookup_insert_ne by done. by exists st.
Qed.

(** No step removes an emitter from the heap or a broadcast listener from
    an emitter. *)
Lemma heap_step s ev e em :
  Inv s → heap s !! e = Some em →
  ∃ em', heap (fst (step s ev)) !! e = Some em' ∧
         ∀ r, r ∈ on_broadcast em → r ∈ on_broadcast em'.
Proof.
  intros HI Hem.
  assert (Hsame : ∀ s', heap s' = heap s →
            ∃ em', heap s' !! e = Some em' ∧
                   ∀ r, r ∈ on_broadcast em → r ∈ on_broadcast em').
  { intros s' Heq. exists em. by rewrite Heq. }
  destruct ev as [name db|db|c' db1 db2|accept c'|c' db|c' content username db|i|r].
  - apply Hsame. by rewrite step_post_channel.
  - apply Hsame. by rewrite step_get_channels.
  - apply Hsame. rewrite step_delete_channel. by destruct (nonempty c'), db1, db2.
  - destruct (decide (accept = sse)) as [->|Hacc];
      [|apply Hsame; by rewrite step_get_events_plain].
    destruct (nonempty c') eqn:Hc';
      [|apply nonempty_false in Hc' as ->; apply Hsame; by rewrite step_get_events_empty].
    rewrite step_get_events_stream by done.
    destruct (eventEmitters s !! c') as [cd'|] eqn:Hcd'.
    + destruct (inv_hub _ HI _ _ Hcd') as (em0 & Hem0 & _).
      rewrite (attach_eq _ _ _ _ _ Hem0). simpl.
      destruct (decide (e = emitter cd')) as [->|Hne].
      * rewrite list_lookup_insert_eq by by eapply lookup_lt_Some.
        rewrite Hem in Hem0. injection Hem0 as <-.
        eexists. split; [done|]. simpl. intros r Hr. apply elem_of_app. by left.
      * rewrite list_lookup_insert_ne by done. by exists em.
    + erewrite attach_eq; [|simpl; by apply list_lookup_middle]. simpl.
      assert (e < length (heap s)) by by eapply lookup_lt_Some.
      rewrite list_lookup_insert_ne by lia. exists em. split; [|done].
      by apply lookup_app_l_Some.
  - apply Hsame. by rewrite step_get_messages.
  - apply Hsame. rewrite step_post_message.
    destruct db as [[id created_at]|]; [|done].
    destruct (eventEmitters s !! c') as [cd'|]; [|done].
    by destruct (emit_broadcast_frame (emitter cd')
                   (mkPayload c' id username content created_at)
                   (log_query (InsertMessage content c' username) s)) as (-> & _).
  - apply Hsame. simpl. unfold tick. destruct (intervals s !! i) as [iv|]; [|done].
    destruct (i_cleared iv); [done|]. unfold res_write.
    by destruct (streams s !! i_owner iv).
  - apply Hsame. simpl. unfold disconnect. by destruct (streams s !! r).
Qed.

(** A stream whose listener is on the emitter of a registered hub belongs
    to that hub only. *)
Lemma listener_emitter s e em rid st :
  Inv s → heap s !! e = Some em → rid ∈ on_broadcast em →
  streams s !! rid = Some st → s_emitter st = e.
Proof.
  intros HI Hem Hr Hst. destruct (inv_listeners _ HI _ _ Hem) as [_ Hall].
  rewrite Forall_forall in Hall. destruct (Hall rid Hr) as (st0 & Hst0 & He).
  rewrite Hst in Hst0. by injection Hst0 as <-.
Qed.

Lemma orphan_step s ev e :
  Inv s → e < length (heap s) → orphan s e →
  orphan (fst (step s ev)) e ∧ e < length (heap (fst (step s ev))).
Proof.
  intros HI He Horph. split.
  - intros c cd Hc. rewrite (step_registry _ _ _ HI) in Hc.
    destruct (eventEmitters s !! c) as [cd0|] eqn:Hcd0.
    + specialize (Horph _ _ Hcd0).
      destruct (deletes c ev); [done|].
      destruct (emits_on c s ev); by injection Hc as <-.
    + destruct (subscribes c ev); [|done]. injection Hc as <-. simpl. lia.
  - destruct (lookup_lt_is_Some_2 _ _ He) as [em Hem].
    destruct (heap_step s ev e em HI Hem) as (em' & Hem' & _).
    by eapply lookup_lt_Some.
Qed.

Lemma orphan_frames s ev rid st :
  Inv s → streams s !! rid = Some st → orphan s (s_emitter st) →
  frames_for s ev rid = [].
Proof.
  intros HI Hst Horph. unfold frames_for.
  destruct ev as [| | | | |c content username [[id created_at]|]| |]; try done.
  destruct (eventEmitters s !! c) as [cd|] eqn:Hcd; [|done].
  destruct (heap s !! emitter cd) as [em|] eqn:Hem; [|done].
  case_bool_decide as Hin; [|done].
  destruct (Horph _ _ Hcd). symmetry. by eapply listener_emitter.
Qed.

Lemma orphan_log evs : ∀ s rid st,
  Inv s → streams s !! rid = Some st →
  s_emitter st < length (heap s) → orphan s (s_emitter st) →
  ∃ st', streams (run s evs) !! rid = Some st' ∧ deliveries st' = deliveries st.
Proof.
  induction evs as [|ev evs IH]; intros s rid st HI Hst He Horph; [by exists st|].
  rewrite run_cons.
  destruct (stream_step s ev rid st HI Hst) as (st1 & Hst1 & He1 & Hd1).
  rewrite (orphan_frames _ _ _ _ HI Hst Horph), app_nil_r in Hd1.
  destruct (orphan_step s ev _ HI He Horph) as [Horph1 He'].
  rewrite <- He1 in Horph1, He'.
  destruct (IH _ rid st1 (Inv_step s ev HI) Hst1 He' Horph1) as (st' & Hst' & Hd').
  exists st'. split; [done|]. by rewrite Hd', Hd1.
Qed.

Lemma numbered_id k ps n : IdChunk n ∈ numbered k ps → k ≤ n.
Proof.
  revert k. induction ps as [|p ps IH]; intros k Hin; simpl in Hin.
  - by apply elem_of_nil in Hin.
  - apply elem_of_cons in Hin as [?|Hin]; [done|].
    apply elem_of_cons in Hin as [[= ->]|Hin]; [lia|].
    specialize (IH _ Hin). lia.
Qed.

Lemma subscribed_log c evs : ∀ s rid st cd em,
  Inv s → streams s !! rid = Some st →
  eventEmitters s !! c = Some cd → heap s !! emitter cd = Some em →
  rid ∈ on_broadcast em →
  ∃ st', streams (run s evs) !! rid = Some st' ∧
         deliveries st' =
         deliveries st ++ numbered (messageCounter cd) (posted_while_subscribed c evs).
Proof.
  induction evs as [|ev evs IH]; intros s rid st cd em HI Hst Hc Hem Hr.
  { exists st. by rewrite app_nil_r. }
  rewrite run_cons.
  assert (HI1 := Inv_step s ev HI).
  assert (Hest := listener_emitter _ _ _ _ _ HI Hem Hr Hst).
  destruct (stream_step s ev rid st HI Hst) as (st1 & Hst1 & He1 & Hd1).
  destruct (heap_step s ev _ em HI Hem) as (em1 & Hem1 & Hsub).
  assert (Hc1 := step_registry s ev c HI). rewrite Hc in Hc1.
  simpl posted_while_subscribed.
  destruct (deletes c ev) eqn:Hdel.
  - (* the hub of [c] is removed: the emitter of [rid] is no longer used *)
    assert (Hframes : frames_for s ev rid = []).
    { by destruct ev. }
    rewrite Hframes in Hd1. rewrite app_nil_r in *.
    assert (Horph : orphan (fst (step s ev)) (s_emitter st1)).
    { intros c0 cd0 Hc0. rewrite He1, Hest.
      destruct (decide (c0 = c)) as [->|Hne]; [congruence|].
      rewrite (step_registry _ _ _ HI) in Hc0.
      destruct (eventEmitters s !! c0) as [cd0'|] eqn:Hcd0.
      - assert (emitter cd0' ≠ emitter cd).
        { intros Heq. apply Hne. exact (Inv_emitter_inj s c0 c cd0' cd HI Hcd0 Hc Heq). }
        destruct (deletes c0 ev); [done|].
        destruct (emits_on c0 s ev); by injection Hc0 as <-.
      - destruct (subscribes c0 ev); [|done]. injection Hc0 as <-. simpl.
        apply lookup_lt_Some in Hem. lia. }
    assert (Hlt : s_emitter st1 < length (heap (fst (step s ev)))).
    { rewrite He1, Hest. by eapply lookup_lt_Some. }
    destruct (orphan_log evs _ rid st1 HI1 Hst1 Hlt Horph) as (st' & Hst' & Hd').
    exists st'. split; [done|]. by rewrite Hd', Hd1.
  - destruct (emits_on c s ev) eqn:Hemit.
    + destruct ev as [| | | | |c' content username [[id created_at]|]| |]; try done.
      simpl in Hemit. apply andb_true_iff in Hemit as [Hcc _].
      apply bool_decide_eq_true_1 in Hcc as ->.
      rewrite bool_decide_eq_true_2 by done.
      simpl in Hd1. rewrite Hc, Hem, bool_decide_eq_true_2 in Hd1 by done.
      destruct (IH _ rid st1 _ em1 HI1 Hst1 Hc1 Hem1 (Hsub _ Hr)) as (st' & Hst' & Hd').
      exists st'. split; [done|]. rewrite Hd', Hd1. simpl.
      rewrite <- app_assoc. simpl. by rewrite Nat.add_1_r.
    + assert (Hframes : frames_for s ev rid = []).
      { destruct ev as [| | | | |c' content username [[id created_at]|]| |]; try done.
        simpl in *. destruct (eventEmitters s !! c') as [cd'|] eqn:Hcd'; [|done].
        destruct (heap s !! emitter cd') as [em'|] eqn:Hem'; [|done].
        destruct (decide (rid ∈ on_broadcast em')) as [Hin|Hin];
          [|by rewrite bool_decide_eq_false_2].
        assert (c' = c) as ->.
        { apply (Inv_emitter_inj s c' c cd' cd HI Hcd' Hc).
          by rewrite <- (listener_emitter _ _ _ _ _ HI Hem' Hin Hst). }
        rewrite bool_decide_eq_true_2 in Hemit by done.
        rewrite bool_decide_eq_true_2 in Hemit by by eexists. done. }
      rewrite Hframes, app_nil_r in Hd1.
      destruct (IH _ rid st1 _ em1 HI1 Hst1 Hc1 Hem1 (Hsub _ Hr)) as (st' & Hst' & Hd').
      exists st'. split; [done|]. rewrite Hd', Hd1. f_equal. f_equal.
      destruct ev as [| | | | |c' content username [[id created_at]|]| |]; try done.
      simpl in Hemit. case_bool_decide as Hcc; [|done]. subst c'.
      rewrite bool_decide_eq_true_2 in Hemit by by eexists. done.
Qed.

(** C7: a client that opens a stream on [c] after [K] publishes on the
    channel's hub starts with the handshake chunk only; whatever requests
    follow, its stream holds, besides keepalive comments, exactly the
    handshake and the data and id chunks of the messages posted on [c] until
    the hub is removed, numbered [K + 1], [K + 2], ...; no id up to [K] is
    ever written to it. *)
Theorem late_subscriber evs evs' c :
  nonempty c = true →
  let s := run init evs in
  let K := published c init evs 0 in
  let rid := length (streams s) in
  (s_written <$> streams (fst (step s (GetEvents sse c))) !! rid = Some [InitChunk]) ∧
  ∃ st', streams (run s (GetEvents sse c :: evs')) !! rid = Some st' ∧
         deliveries st' = InitChunk :: numbered (S K) (posted_while_subscribed c evs') ∧
         ∀ k, IdChunk k ∈ s_written st' → K < k.
Proof.
  intros Hne s K rid.
  assert (HI : Inv s) by apply Inv_run, Inv_init.
  assert (Hcnt := counter_published c evs init 0 Inv_init eq_refl).
  unfold counter_is in Hcnt. fold s K in Hcnt.
  assert (HI1 := Inv_step s (GetEvents sse c) HI).
  assert (Hreg := step_registry s (GetEvents sse c) c HI).
  rewrite run_cons. revert HI1 Hreg.
  rewrite step_get_events_stream by done. intros HI1 Hreg.
  assert (Hgoal : ∀ s1 e mc em1,
    Inv s1 →
    streams s1 = streams s ++ [mkStream [InitChunk] false c e mc (length (intervals s))] →
    eventEmitters s1 !! c = Some (mkChannelData e mc) → mc = S K →
    heap s1 !! e = Some em1 → rid ∈ on_broadcast em1 →
    (s_written <$> streams s1 !! rid = Some [InitChunk]) ∧
    ∃ st', streams (run s1 evs') !! rid = Some st' ∧
           deliveries st' = InitChunk :: numbered (S K) (posted_while_subscribed c evs') ∧
           ∀ k, IdChunk k ∈ s_written st' → K < k).
  { intros s1 e mc em1 HIs1 Hstr Hc1 Hmc Hem1 Hr1.
    assert (Hst1 : streams s1 !! rid =
                   Some (mkStream [InitChunk] false c e mc (length (intervals s)))).
    { rewrite Hstr. by apply list_lookup_middle. }
    split; [by rewrite Hst1|].
    destruct (subscribed_log c evs' s1 rid _ _ em1 HIs1 Hst1 Hc1 Hem1 Hr1)
      as (st' & Hst' & Hd').
    simpl in Hd'. rewrite Hmc in Hd'. exists st'. repeat split; [done..|].
    intros k Hk.
    assert (Hin : IdChunk k ∈ deliveries st') by by apply list_elem_of_filter.
    rewrite Hd' in Hin. apply elem_of_cons in Hin as [?|Hin]; [done|].
    apply numbered_id in Hin. lia. }
  destruct (eventEmitters s !! c) as [cd|] eqn:Hcd.
  - destruct (inv_hub _ HI _ _ Hcd) as (em & Hem & _).
    destruct (attach_frame c (emitter cd) (messageCounter cd) s) as (_ & Hstr & _).
    simpl in Hreg.
    destruct cd as [e mc]. simpl in *.
    apply (Hgoal _ e mc (mkEmitter (on_broadcast em ++ [rid]) (on_close em ++ [rid])));
      [done|done|done|lia| |].
    + rewrite (attach_eq _ _ _ _ _ Hem). simpl.
      apply list_lookup_insert_eq. by eapply lookup_lt_Some.
    + simpl. apply elem_of_app. right. by apply list_elem_of_here.
  - simpl in Hreg.
    rewrite Hne, !bool_decide_eq_true_2 in Hreg by done. simpl in Hreg.
    match goal with |- context [attach ?a ?b ?d ?x] =>
      destruct (attach_frame a b d x) as (_ & Hstr & _) end.
    apply (Hgoal _ (length (heap s)) 1 (mkEmitter [rid] [rid]));
      [done|done|done|lia| |].
    + erewrite attach_eq; [|simpl; by apply list_lookup_middle]. simpl.
      apply list_lookup_insert_eq. rewrite length_app. simpl. lia.
    + simpl. by apply list_elem_of_here.
Qed.

Lemma late_subscriber_witness :
  ∃ st', streams (run (run init late_evs) (GetEvents sse "1" :: late_evs')) !! 1 = Some st' ∧
         deliveries st' =
         [InitChunk; DataChunk (mkPayload "1" 8 (Some "bob") (Some "bye") "t1"); IdChunk 2].
Proof.
  destruct (late_subscriber late_evs late_evs' "1" eq_refl) as (_ & st' & Hst' & Hd' & _).
  exists st'. split; [exact Hst'|exact Hd'].
Defined.

Lemma nth_publish_id_witness :
  let s := run init late_evs in
  let s' := fst (step s (PostMessage "1" (Some "bye") (Some "bob") (Some (8, "t1")))) in
  messageCounter <$> eventEmitters s !! "1" = Some 2 ∧
  messageCounter <$> eventEmitters s' !! "1" = Some 3.
Proof.
  destruct (nth_publish_id late_evs "1" (mkChannelData 0 2) (mkEmitter [0] [0])
              (Some "bye") (Some "bob") 8 "t1" 0 eq_refl eq_refl
              (list_elem_of_here 0 []))
    as (_ & _ & Hafter & _).
  split; [reflexivity|exact Hafter].
Defined.

(** ** The lifetime of a hub *)

Lemma hub_step s ev c :
  Inv s →
  is_Some (eventEmitters (fst (step s ev)) !! c) ↔
  subscribes c ev = true ∨ (is_Some (eventEmitters s !! c) ∧ deletes c ev = false).
Proof.
  intros HI. rewrite (step_registry _ _ _ HI).
  destruct (eventEmitters s !! c) as [cd|] eqn:Hcd.
  - destruct (deletes c ev) eqn:Hdel.
    + split; [by intros [? ?]|]. intros [Hs|[_ ?]]; [|done]. by destruct ev.
    + split; [by right|]. intros _. by destruct (emits_on c s ev).
  - destruct (subscribes c ev).
    + split; [by left|by eexists].
    + split; [by intros [? ?]|]. by intros [?|[[? ?] _]].
Qed.

Lemma hub_lifetime c evs :
  is_Some (eventEmitters (run init evs) !! c) ↔ subscribed_since_removal c evs.
Proof.
  induction evs as [|ev evs IH] using rev_ind.
  - split.
    + simpl. rewrite lookup_empty. by intros [? ?].
    + intros (evs1 & ev & evs2 & Heq & _). by destruct evs1.
  - rewrite run_snoc, (hub_step _ _ _ (Inv_run init evs Inv_init)). split.
    + intros [Hsub|[Hsome Hdel]].
      * exists evs, ev, []. by repeat split.
      * apply IH in Hsome as (evs1 & ev0 & evs2 & -> & Hsub & Hall).
        exists evs1, ev0, (evs2 ++ [ev]). split; [by rewrite <- app_assoc|].
        split; [done|]. apply Forall_app. split; [done|]. by apply Forall_singleton.
    + intros (evs1 & ev0 & evs2 & Heq & Hsub & Hall).
      destruct evs2 as [|x evs2 _] using rev_ind.
      * apply app_inj_tail in Heq as [_ ->]. by left.
      * rewrite app_comm_cons, app_assoc in Heq. apply app_inj_tail in Heq as [-> ->].
        apply Forall_app in Hall as [Hall Hx]. rewrite Forall_singleton in Hx.
        right. split; [|done]. apply IH. by exists evs1, ev0, evs2.
Qed.

(** C8: after any sequence of requests the registry holds a hub for [c]
    exactly when a stream has been opened on [c] and [c] has not been
    deleted since; a deletion of [c] leaves no hub for [c]; and opening a
    stream on a channel without a hub puts a new emitter, on which only the
    new stream listens, in the registry with counter 1. *)
Theorem registry_invariant evs c ev :
  let s := run init evs in
  let s' := fst (step s ev) in
  (is_Some (eventEmitters s !! c) ↔ subscribed_since_removal c evs) ∧
  (deletes c ev = true → eventEmitters s' !! c = None) ∧
  (eventEmitters s !! c = None → subscribes c ev = true →
   eventEmitters s' !! c = Some (mkChannelData (length (heap s)) 1) ∧
   heap s !! length (heap s) = None ∧
   heap s' !! length (heap s) =
     Some (mkEmitter [length (streams s)] [length (streams s)])).
Proof.
  intros s s'. assert (HI : Inv s) by apply Inv_run, Inv_init.
  split; [apply hub_lifetime|]. split.
  - intros Hdel. subst s'. rewrite (step_registry _ _ _ HI), Hdel.
    destruct (eventEmitters s !! c); [done|]. by destruct ev.
  - intros Hnone Hsub. subst s'. split; [|split].
    + by rewrite (step_registry _ _ _ HI), Hnone, Hsub.
    + by apply lookup_ge_None_2.
    + destruct ev as [| | |accept c'| | | |]; try done. simpl in Hsub.
      apply andb_true_iff in Hsub as [Hsub Hcc].
      apply andb_true_iff in Hsub as [Hacc Hne].
      apply bool_decide_eq_true_1 in Hacc as ->.
      apply bool_decide_eq_true_1 in Hcc as ->.
      rewrite step_get_events_stream, Hnone by done.
      erewrite attach_eq; [|simpl; by apply list_lookup_middle]. simpl.
      apply list_lookup_insert_eq. rewrite length_app. simpl. lia.
Qed.

Lemma registry_invariant_witness :
  let s := run init [GetEvents sse "1"; DeleteChannel "1" true true] in
  eventEmitters s !! "1" = None ∧
  eventEmitters (fst (step s (GetEvents sse "1"))) !! "1" = Some (mkChannelData 1 1) ∧
  heap (fst (step s (GetEvents sse "1"))) !! 1 = Some (mkEmitter [1] [1]).
Proof.
  destruct (registry_invariant [GetEvents sse "1"; DeleteChannel "1" true true] "1"
              (GetEvents sse "1")) as (_ & _ & Hnew).
  destruct (Hnew eq_refl eq_refl) as (Hreg & _ & Hheap).
  split; [reflexivity|]. split; [exact Hreg|exact Hheap].
Defined.

(** C10: when a stream is opened on a channel that already has a hub, the
    registry is left as it is, no emitter is created, the new stream's
    listeners are appended to the hub's emitter and the stream starts from
    the counter stored on the hub; and a stream request for any other
    channel leaves the registry entry of this channel as it was. *)
Theorem open_stream_idempotent s c cd em accept c' :
  nonempty c = true →
  eventEmitters s !! c = Some cd → heap s !! emitter cd = Some em →
  let rid := length (streams s) in
  let s' := fst (step s (GetEvents sse c)) in
  eventEmitters s' = eventEmitters s ∧
  length (heap s') = length (heap s) ∧
  heap s' = <[emitter cd := mkEmitter (on_broadcast em ++ [rid]) (on_close em ++ [rid])]>
              (heap s) ∧
  streams s' = streams s ++
    [mkStream [InitChunk] false c (emitter cd) (messageCounter cd) (length (intervals s))] ∧
  (c' ≠ c → eventEmitters (fst (step s (GetEvents accept c'))) !! c = Some cd).
Proof.
  intros Hne Hc Hem rid s'. subst s'.
  rewrite step_get_events_stream, Hc by done.
  rewrite (attach_eq _ _ _ _ _ Hem).
  split; [done|]. split; [simpl; by rewrite length_insert|].
  split; [done|]. split; [done|].
  intros Hcc. destruct (decide (accept = sse)) as [->|Hacc];
    [|by rewrite step_get_events_plain].
  destruct (nonempty c') eqn:Hne';
    [|apply nonempty_false in Hne' as ->; by rewrite step_get_events_empty].
  rewrite step_get_events_stream by done.
  destruct (eventEmitters s !! c') as [cd'|];
    match goal with |- eventEmitters (attach ?a ?b ?d ?x) !! _ = _ =>
      destruct (attach_frame a b d x) as (-> & _) end; [done|].
  simpl. by rewrite lookup_insert_ne.
Qed.

Lemma open_stream_idempotent_witness :
  let s := run init late_evs in
  eventEmitters (fst (step s (GetEvents sse "1"))) = eventEmitters s ∧
  streams (fst (step s (GetEvents sse "1"))) !! 1 =
    Some (mkStream [InitChunk] false "1" 0 2 1).
Proof.
  destruct (open_stream_idempotent (run init late_evs) "1" (mkChannelData 0 2)
              (mkEmitter [0] [0]) sse "2" eq_refl eq_refl eq_refl)
    as (Hreg & _ & _ & Hstr & _).
  split; [exact Hreg|]. rewrite Hstr. reflexivity.
Defined.

(** ** Posting a message *)

(** The insert is sent to the database whatever the request holds. *)
Lemma post_message_pool s c content username db :
  pool (fst (step s (PostMessage c content username db))) =
  pool s ++ [InsertMessage content c username].
Proof.
  rewrite step_post_message. destruct db as [[id created_at]|]; [|done].
  destruct (eventEmitters s !! c) as [cd|]; [|done].
  by destruct (emit_broadcast_frame (emitter cd)
                 (mkPayload c id username content created_at)
                 (log_query (InsertMessage content c username) s)) as (_ & _ & ->).
Qed.

Lemma post_message_valid s c content username id created_at :
  nonempty c = true → truthy content = true → truthy username = true →
  step s (PostMessage c content username (Some (id, created_at))) =
  match eventEmitters s !! c with
  | None =>
      (log_query (InsertMessage content c username) s,
       mkReply (Some (404, Text "Channel not found")) true)
  | Some cd =>
      (emit_broadcast (emitter cd) (mkPayload c id username content created_at)
         (log_query (InsertMessage content c username) s),
       mkReply (Some (201, JsonMsg "Chat message posted")) false)
  end.
Proof.
  intros Hc Hcontent Huser.
  unfold step, serve, post_message, bind, when, respond, pool_query, get_state,
    modify, ret, log_query.
  rewrite Hc, Hcontent, Huser. simpl.
  by destruct (eventEmitters s !! c) as [cd|].
Qed.

(** C5: a [POST /message/c] with a channel id, a content and a username,
    whose insert returned a row: without a hub for [c] the client is sent
    404, no listener runs (the streams are untouched) and the insert has
    been made; with a hub the client is sent 201 with
    [{ msg: "Chat message posted" }] and the state is the one after a single
    [emit("broadcast", { channelId, id, username, content, created_at })] on
    the hub's emitter.  In both cases the insert is the one statement added
    to the database log. *)
Theorem post_message_outcome s c content username id created_at :
  nonempty c = true → truthy content = true → truthy username = true →
  let r := step s (PostMessage c content username (Some (id, created_at))) in
  match eventEmitters s !! c with
  | None =>
      sent (snd r) = Some (404, Text "Channel not found") ∧
      streams (fst r) = streams s ∧ eventEmitters (fst r) = eventEmitters s
  | Some cd =>
      snd r = mkReply (Some (201, JsonMsg "Chat message posted")) false ∧
      fst r = emit_broadcast (emitter cd) (mkPayload c id username content created_at)
                (log_query (InsertMessage content c username) s)
  end ∧
  pool (fst r) = pool s ++ [InsertMessage content c username].
Proof.
  intros Hc Hcontent Huser r. split; [|apply post_message_pool].
  subst r. rewrite post_message_valid by done.
  by destruct (eventEmitters s !! c).
Qed.

Lemma post_message_outcome_witness :
  let r := step two_subscribers
             (PostMessage "2" (Some "hi") (Some "alice") (Some (7, "t0"))) in
  sent (snd r) = Some (404, Text "Channel not found") ∧
  pool (fst r) = [InsertMessage (Some "hi") "2" (Some "alice")].
Proof.
  destruct (post_message_outcome two_subscribers "2" (Some "hi") (Some "alice") 7 "t0"
              eq_refl eq_refl eq_refl) as ((Hsent & _ & _) & Hpool).
  split; [exact Hsent|exact Hpool].
Defined.

(** ** Delivery to a connection that has failed *)

(** C6, the code at the failing input: streams 0 and 1 listen on channel
    "1" and the client of stream 0 has gone.  A publish on "1" is answered
    201 and is written to stream 1, so delivery goes on and the publisher
    sees nothing; it is written to the lost connection of stream 0 as
    well, and afterwards stream 0 is still a broadcast listener of the
    hub's emitter and its timer still runs: the failed subscriber is not
    removed. *)
Theorem failed_subscriber_not_removed :
  let r := step one_gone (PostMessage "1" (Some "hi") (Some "alice") (Some (7, "t0"))) in
  s_gone <$> streams one_gone !! 0 = Some true ∧
  on_broadcast <$> heap one_gone !! 0 = Some [0; 1] ∧
  snd r = mkReply (Some (201, JsonMsg "Chat message posted")) false ∧
  s_written <$> streams (fst r) !! 1 =
    Some [InitChunk; DataChunk (mkPayload "1" 7 (Some "alice") (Some "hi") "t0"); IdChunk 1] ∧
  s_written <$> streams (fst r) !! 0 =
    Some [InitChunk; DataChunk (mkPayload "1" 7 (Some "alice") (Some "hi") "t0"); IdChunk 1] ∧
  on_broadcast <$> heap (fst r) !! 0 = Some [0; 1] ∧
  i_cleared <$> intervals (fst r) !! 0 = Some false.
Proof. repeat split. Qed.

(** ** Keepalive *)

Lemma tick_streams s i iv rid :
  intervals s !! i = Some iv → i_cleared iv = false →
  streams (tick i s) !! rid =
  if bool_decide (rid = i_owner iv) then write CommentChunk <$> streams s !! rid
  else streams s !! rid.
Proof.
  intros Hiv Hcl. unfold tick, res_write. rewrite Hiv, Hcl.
  destruct (streams s !! i_owner iv) as [st0|] eqn:Hst0; simpl.
  - case_bool_decide as Hr.
    + subst rid. rewrite Hst0. simpl.
      apply list_lookup_insert_eq. by eapply lookup_lt_Some.
    + by rewrite list_lookup_insert_ne.
  - case_bool_decide as Hr; [|done]. subst rid. by rewrite Hst0.
Qed.

(** C9: opening a stream starts one timer of period 10000 for it, and a
    publish leaves every timer as it is; a tick of a running timer writes
    the one chunk [":\n\n"], whose text depends on no payload and no
    counter, to the stream of its request only, and leaves the registry
    (every stored counter), the emitters, the timers and the counter
    captured by every listener unchanged. *)
Theorem keepalive_frame s i iv c content username db :
  intervals s !! i = Some iv → i_cleared iv = false →
  (eventEmitters (tick i s) = eventEmitters s ∧
   heap (tick i s) = heap s ∧
   intervals (tick i s) = intervals s ∧
   pool (tick i s) = pool s) ∧
  (∀ rid, streams (tick i s) !! rid =
          if bool_decide (rid = i_owner iv) then write CommentChunk <$> streams s !! rid
          else streams s !! rid) ∧
  (∀ st, s_written (write CommentChunk st) = s_written st ++ [CommentChunk] ∧
         deliveries (write CommentChunk st) = deliveries st ∧
         s_messageCounter (write CommentChunk st) = s_messageCounter st ∧
         s_emitter (write CommentChunk st) = s_emitter st ∧
         s_channelId (write CommentChunk st) = s_channelId st) ∧
  (∀ stringify decimal, chunk_text stringify decimal CommentChunk = ":" +:+ nl +:+ nl) ∧
  intervals (fst (step s (PostMessage c content username db))) = intervals s ∧
  (nonempty c = true →
   intervals (fst (step s (GetEvents sse c))) =
   intervals s ++ [mkInterval (length (streams s)) 10000 false]).
Proof.
  intros Hiv Hcl. split; [|split; [|split; [|split; [|split]]]].
  - unfold tick, res_write. rewrite Hiv, Hcl.
    by destruct (streams s !! i_owner iv).
  - intros rid. by apply tick_streams.
  - intros st. repeat split.
    unfold deliveries, write. simpl. by rewrite filter_app, app_nil_r.
  - done.
  - rewrite step_post_message. destruct db as [[id created_at]|]; [|done].
    destruct (eventEmitters s !! c) as [cd|]; [|done].
    by destruct (emit_broadcast_frame (emitter cd)
                   (mkPayload c id username content created_at)
                   (log_query (InsertMessage content c username) s)) as (_ & -> & _).
  - intros Hne. rewrite step_get_events_stream by done.
    destruct (eventEmitters s !! c) as [cd|];
      match goal with |- intervals (attach ?a ?b ?d ?x) = _ =>
        by destruct (attach_frame a b d x) as (_ & _ & -> & _) end.
Qed.

Lemma keepalive_frame_witness :
  s_written <$> streams (tick 0 two_subscribers) !! 0 = Some [InitChunk; CommentChunk] ∧
  eventEmitters (tick 0 two_subscribers) = eventEmitters two_subscribers.
Proof.
  destruct (keepalive_frame two_subscribers 0 (mkInterval 0 10000 false)
              "1" (Some "hi") (Some "alice") None eq_refl eq_refl)
    as ((Hreg & _) & Hstr & _).
  split; [|exact Hreg]. rewrite (Hstr 0). reflexivity.
Defined.

(** ** Closing a stream *)

(** No request, tick or disconnect stops a timer. *)
Lemma interval_step s ev i iv :
  intervals s !! i = Some iv → intervals (fst (step s ev)) !! i = Some iv.
Proof.
  intros Hiv.
  assert (Hsame : ∀ s', intervals s' = intervals s → intervals s' !! i = Some iv).
  { intros s' ->. done. }
  destruct ev as [name db|db|c' db1 db2|accept c'|c' db|c' content username db|j|r].
  - apply Hsame. by rewrite step_post_channel.
  - apply Hsame. by rewrite step_get_channels.
  - apply Hsame. rewrite step_delete_channel. by destruct (nonempty c'), db1, db2.
  - destruct (decide (accept = sse)) as [->|Hacc];
      [|apply Hsame; by rewrite step_get_events_plain].
    destruct (nonempty c') eqn:Hc';
      [|apply nonempty_false in Hc' as ->; apply Hsame; by rewrite step_get_events_empty].
    rewrite step_get_events_stream by done.
    destruct (eventEmitters s !! c') as [cd'|];
      match goal with |- intervals (attach ?a ?b ?d ?x) !! _ = _ =>
        destruct (attach_frame a b d x) as (_ & _ & -> & _) end;
      by apply lookup_app_l_Some.
  - apply Hsame. by rewrite step_get_messages.
  - apply Hsame. rewrite step_post_message. destruct db as [[id created_at]|]; [|done].
    destruct (eventEmitters s !! c') as [cd'|]; [|done].
    by destruct (emit_broadcast_frame (emitter cd')
                   (mkPayload c' id username content created_at)
                   (log_query (InsertMessage content c' username) s)) as (_ & -> & _).
  - apply Hsame. simpl. unfold tick. destruct (intervals s !! j) as [jv|]; [|done].
    destruct (i_cleared jv); [done|]. unfold res_write.
    by destruct (streams s !! i_owner jv).
  - apply Hsame. simpl. unfold disconnect. by destruct (streams s !! r).
Qed.

(** C3, the code at the failing inputs: stream 0 is open on channel "1".
    After its client disconnects, and likewise after channel "1" is
    deleted, its timer is still running and its broadcast listener is still
    on the emitter; the next tick still writes to the connection that has
    gone.  Were "close" emitted on the emitter (no handler does it), the
    listener of lines 175-178 would stop the timer and still leave the
    broadcast listener in place, its [removeListener] being given a new
    function. *)
Theorem closing_triggers_leak :
  let s1 := run streaming [Disconnect 0] in
  let s2 := run streaming [DeleteChannel "1" true true] in
  (s_gone <$> streams s1 !! 0 = Some true ∧
   i_cleared <$> intervals s1 !! 0 = Some false ∧
   on_broadcast <$> heap s1 !! 0 = Some [0] ∧
   s_written <$> streams (run s1 [Tick 0]) !! 0 = Some [InitChunk; CommentChunk]) ∧
  (eventEmitters s2 !! "1" = None ∧
   i_cleared <$> intervals s2 !! 0 = Some false ∧
   on_broadcast <$> heap s2 !! 0 = Some [0]) ∧
  (i_cleared <$> intervals (emit_close 0 s1) !! 0 = Some true ∧
   on_broadcast <$> heap (emit_close 0 s1) !! 0 = Some [0]).
Proof. repeat split. Qed.

(** ** Validation *)

(** C4, the code at the failing inputs: a [POST /message/1] without
    [content], made while stream 0 listens on channel "1", is answered 400,
    and yet the insert is sent to the database and the message is broadcast
    to the stream; a [POST /channel] without [name] is answered 400 and the
    insert is sent to the database all the same. *)
Theorem validation_does_not_short_circuit :
  let r := step streaming (PostMessage "1" None (Some "alice") (Some (7, "t0"))) in
  let r' := step init (PostChannel None (Some 1)) in
  (sent (snd r) =
     Some (400, JsonMsg "Missing required argument (channelId, content or username)") ∧
   pool (fst r) = [InsertMessage None "1" (Some "alice")] ∧
   s_written <$> streams (fst r) !! 0 =
     Some [InitChunk; DataChunk (mkPayload "1" 7 (Some "alice") None "t0"); IdChunk 1]) ∧
  (sent (snd r') = Some (400, JsonMsg "Missing required argument name") ∧
   pool (fst r') = [InsertChannel None]).
Proof. repeat split. Qed.

(** ** Properties kept by every step *)

Section StepRel.

(** A relation between a state and a later one that holds across each
    elementary state change holds across every step and every run. *)
Variable R : State → State → Prop.
Hypothesis R_refl : ∀ s, R s s.
Hypothesis R_trans : ∀ s1 s2 s3, R s1 s2 → R s2 s3 → R s1 s3.
Hypothesis R_log : ∀ q s, R s (log_query q s).
Hypothesis R_delete : ∀ c s, R s (set_eventEmitters (delete c) s).
Hypothesis R_new_hub : ∀ c s, eventEmitters s !! c = None → R s (new_hub c s).
Hypothesis R_attach : ∀ c e mc s,
  eventEmitters s !! c = Some (mkChannelData e mc) → R s (attach c e mc s).
Hypothesis R_listener : ∀ data rid s, R s (broadcast_listener data rid s).
Hypothesis R_tick : ∀ i s, R s (tick i s).
Hypothesis R_disconnect : ∀ rid s, R s (disconnect rid s).

Lemma call_listeners_rel data ls : ∀ s, R s (call_listeners data ls s).
Proof.
  induction ls as [|r ls IH]; intros s; [apply R_refl|]. simpl.
  eapply R_trans; [apply R_listener|apply IH].
Qed.

Lemma emit_broadcast_rel e data s : R s (emit_broadcast e data s).
Proof.
  unfold emit_broadcast. destruct (heap s !! e); [|apply R_refl].
  apply call_listeners_rel.
Qed.

Lemma step_rel s ev : R s (fst (step s ev)).
Proof.
  destruct ev as [name db|db|c db1 db2|accept c|c db|c content username db|i|rid].
  - rewrite step_post_channel. apply R_log.
  - rewrite step_get_channels. apply R_log.
  - rewrite step_delete_channel.
    destruct (nonempty c), db1, db2; try apply R_refl; try apply R_log.
    + eapply R_trans; [apply R_log|]. eapply R_trans; [apply R_log|]. apply R_delete.
    + eapply R_trans; apply R_log.
  - destruct (decide (accept = sse)) as [->|Hacc];
      [|rewrite step_get_events_plain by done; apply R_refl].
    destruct (nonempty c) eqn:Hc;
      [|apply nonempty_false in Hc as ->; rewrite step_get_events_empty; apply R_refl].
    rewrite step_get_events_stream by done.
    destruct (eventEmitters s !! c) as [[e mc]|] eqn:Hcd.
    + by apply R_attach.
    + eapply R_trans; [by apply R_new_hub|].
      apply (R_attach c (length (heap s)) 1 (new_hub c s)).
      simpl. by rewrite lookup_insert_eq.
  - rewrite step_get_messages. apply R_log.
  - rewrite step_post_message.
    destruct db as [[id created_at]|]; [|apply R_log].
    destruct (eventEmitters s !! c) as [cd|]; [|apply R_log].
    eapply R_trans; [apply R_log|apply emit_broadcast_rel].
  - apply R_tick.
  - apply R_disconnect.
Qed.

Lemma run_rel evs : ∀ s, R s (run s evs).
Proof.
  induction evs as [|ev evs IH]; intros s; [apply R_refl|].
  rewrite run_cons. eapply R_trans; [apply step_rel|apply IH].
Qed.

End StepRel.

(** ** Streams only grow *)

Lemma extends_refl st : extends st st.
Proof. by repeat split. Qed.

Lemma extends_trans st1 st2 st3 : extends st1 st2 → extends st2 st3 → extends st1 st3.
Proof.
  intros (Hw1 & Hc1 & He1 & Hi1 & Hm1) (Hw2 & Hc2 & He2 & Hi2 & Hm2).
  repeat split; [by etrans|congruence..|lia].
Qed.

Lemma grows_same s s' : streams s' = streams s → grows s s'.
Proof. intros Heq rid st Hst. exists st. rewrite Heq. split; [done|apply extends_refl]. Qed.

Lemma grows_insert s rid st st' :
  streams s !! rid = Some st → extends st st' →
  grows s (set_streams <[rid := st']> s).
Proof.
  intros Hst Hext r st0 Hst0. simpl. destruct (decide (r = rid)) as [->|Hne].
  - rewrite list_lookup_insert_eq by by eapply lookup_lt_Some.
    rewrite Hst in Hst0. injection Hst0 as <-. by exists st'.
  - rewrite list_lookup_insert_ne by done. exists st0. split; [done|apply extends_refl].
Qed.

Lemma grows_trans s1 s2 s3 : grows s1 s2 → grows s2 s3 → grows s1 s3.
Proof.
  intros H12 H23 rid st Hst. destruct (H12 _ _ Hst) as (st2 & Hst2 & Hext2).
  destruct (H23 _ _ Hst2) as (st3 & Hst3 & Hext3).
  exists st3. split; [done|]. by eapply extends_trans.
Qed.

Lemma quiet_same s s' :
  intervals s' = intervals s → heap s' = heap s → streams s' = streams s → quiet s s'.
Proof. intros Hi Hh Hs. repeat split; [done|done|by rewrite Hs|by apply grows_same]. Qed.

Lemma quiet_insert s rid st st' :
  streams s !! rid = Some st → extends st st' → quiet s (set_streams <[rid := st']> s).
Proof.
  intros Hst Hext. repeat split; [simpl; by rewrite length_insert|].
  by eapply grows_insert.
Qed.

Lemma quiet_back s s' rid st' :
  quiet s s' → streams s' !! rid = Some st' →
  ∃ st, streams s !! rid = Some st ∧ extends st st'.
Proof.
  intros (_ & _ & Hlen & Hg) Hst'.
  assert (Hlt : rid < length (streams s)).
  { rewrite <- Hlen. by eapply lookup_lt_Some. }
  destruct (lookup_lt_is_Some_2 _ _ Hlt) as [st Hst].
  destruct (Hg _ _ Hst) as (st'' & Hst'' & Hext).
  rewrite Hst' in Hst''. injection Hst'' as <-. by exists st.
Qed.

Lemma quiet_listener data rid s : quiet s (broadcast_listener data rid s).
Proof.
  destruct (streams s !! rid) as [st|] eqn:Hst.
  - rewrite (broadcast_listener_eq _ _ _ _ Hst).
    destruct (quiet_insert s rid st (deliver data st) Hst) as (Hi & Hh & Hlen & Hg).
    { unfold deliver. repeat split; simpl; [by apply prefix_app_r|lia]. }
    by repeat split.
  - unfold broadcast_listener. rewrite Hst. by apply quiet_same.
Qed.

Lemma quiet_tick i s : quiet s (tick i s).
Proof.
  unfold tick. destruct (intervals s !! i) as [iv|]; [|by apply quiet_same].
  destruct (i_cleared iv); [by apply quiet_same|]. unfold res_write.
  destruct (streams s !! i_owner iv) as [st|] eqn:Hst; [|by apply quiet_same].
  apply (quiet_insert s _ st _ Hst). unfold write.
  repeat split; simpl; [by apply prefix_app_r|lia].
Qed.

Lemma quiet_disconnect rid s : quiet s (disconnect rid s).
Proof.
  unfold disconnect. destruct (streams s !! rid) as [st|] eqn:Hst; [|by apply quiet_same].
  apply (quiet_insert s _ st _ Hst). by repeat split.
Qed.

Lemma grows_run s evs : grows s (run s evs).
Proof.
  revert s. apply run_rel.
  - intros s. by apply grows_same.
  - apply grows_trans.
  - intros q s. by apply grows_same.
  - intros c s. by apply grows_same.
  - intros c s _. by apply grows_same.
  - intros c e mc s _ rid st Hst. exists st.
    destruct (attach_frame c e mc s) as (_ & -> & _).
    split; [by apply lookup_app_l_Some|apply extends_refl].
  - intros data rid s. apply quiet_listener.
  - intros i s. apply quiet_tick.
  - intros rid s. apply quiet_disconnect.
Qed.

(** X1: whatever requests, ticks and disconnects follow, a stream stays in
    the state under the same id, with the same channel, emitter and timer;
    the chunks already written to it remain a prefix of what is written to
    it, and its captured counter never goes down. *)
Theorem stream_append_only s evs rid st :
  streams s !! rid = Some st →
  ∃ st', streams (run s evs) !! rid = Some st' ∧
         s_written st `prefix_of` s_written st' ∧
         s_channelId st' = s_channelId st ∧ s_emitter st' = s_emitter st ∧
         s_intervalId st' = s_intervalId st ∧
         s_messageCounter st ≤ s_messageCounter st'.
Proof. intros Hst. exact (grows_run s evs rid st Hst). Qed.

Lemma stream_append_only_witness :
  ∃ st', streams (run two_subscribers late_evs') !! 1 = Some st' ∧
         [InitChunk] `prefix_of` s_written st' ∧ s_channelId st' = "1".
Proof.
  destruct (stream_append_only two_subscribers late_evs' 1
              (mkStream [InitChunk] false "1" 0 1 1) eq_refl)
    as (st' & Hst' & Hpre & Hc & _).
  exists st'. split; [exact Hst'|]. split; [exact Hpre|exact Hc].
Defined.

(** ** Timers *)

Lemma timers_quiet s s' : quiet s s' → timers_paired s → timers_paired s'.
Proof.
  intros Hq (Hlen & Hid & Hiv). destruct Hq as (Hi & Hh & Hl & Hg) eqn:Hqq.
  repeat split.
  - by rewrite Hi, Hl.
  - intros i st' Hst'. destruct (quiet_back _ _ _ _ Hq Hst') as (st & Hst & Hext).
    destruct Hext as (_ & _ & _ & -> & _). by apply Hid.
  - intros i Hlt. rewrite Hi. apply Hiv. by rewrite <- Hl.
Qed.

Lemma timers_run s evs : timers_paired s → timers_paired (run s evs).
Proof.
  revert s. apply (run_rel (λ s s', timers_paired s → timers_paired s')).
  - done.
  - intros s1 s2 s3 H12 H23 H1. by apply H23, H12.
  - intros q s. by apply timers_quiet, quiet_same.
  - intros c s. by apply timers_quiet, quiet_same.
  - intros c s _ (Hlen & Hid & Hiv). by repeat split.
  - intros c e mc s _ (Hlen & Hid & Hiv).
    destruct (attach_frame c e mc s) as (_ & Hs & Hi & _).
    repeat split.
    + rewrite Hs, Hi, !length_app. simpl. lia.
    + intros i st. rewrite Hs. intros [[Hlt Hst]|[-> <-]]%lookup_snoc_Some.
      * by apply Hid.
      * done.
    + intros i. rewrite Hs, Hi, length_app. simpl. intros Hlt.
      destruct (decide (i = length (streams s))) as [->|Hne].
      * apply list_lookup_middle. done.
      * apply lookup_app_l_Some, Hiv. lia.
  - intros data rid s. apply timers_quiet, quiet_listener.
  - intros i s. apply timers_quiet, quiet_tick.
  - intros rid s. apply timers_quiet, quiet_disconnect.
Qed.

Lemma timers_reachable s : reachable s → timers_paired s.
Proof.
  intros [evs ->]. apply timers_run.
  by repeat split; try (intros ? ? ?); try (intros ? ?; simpl in *; lia).
Qed.

(** X2: in every reachable state there are as many timers as streams ever
    opened; the timer of stream [i] is timer [i], it has the period 10000,
    it has never been cleared, and its tick appends the comment chunk to
    stream [i], whether or not the client is still there. *)
Theorem every_stream_keeps_its_timer s i st :
  reachable s → streams s !! i = Some st →
  length (intervals s) = length (streams s) ∧
  s_intervalId st = i ∧
  intervals s !! i = Some (mkInterval i 10000 false) ∧
  streams (tick i s) !! i = Some (write CommentChunk st).
Proof.
  intros Hreach Hst. destruct (timers_reachable s Hreach) as (Hlen & Hid & Hiv).
  assert (Hi := Hiv i (lookup_lt_Some _ _ _ Hst)).
  repeat split; [done|by apply Hid|done|].
  rewrite (tick_streams _ _ _ i Hi eq_refl). simpl.
  rewrite bool_decide_eq_true_2 by done. by rewrite Hst.
Qed.

Lemma every_stream_keeps_its_timer_witness :
  intervals one_gone !! 0 = Some (mkInterval 0 10000 false) ∧
  streams (tick 0 one_gone) !! 0 =
    Some (write CommentChunk (mkStream [InitChunk] true "1" 0 1 0)).
Proof.
  destruct (every_stream_keeps_its_timer one_gone 0 (mkStream [InitChunk] true "1" 0 1 0)
              (ex_intro _ [GetEvents sse "1"; GetEvents sse "1"; Disconnect 0] eq_refl)
              eq_refl) as (_ & _ & Hiv & Htick).
  split; [exact Hiv|exact Htick].
Defined.

(** ** The listeners of an emitter *)

Lemma listeners_quiet s s' :
  quiet s s' → eventEmitters s' = eventEmitters s →
  listeners_complete s → listeners_complete s'.
Proof.
  intros Hq Hreg (H1 & H2 & H3). assert (Hq' := Hq). destruct Hq' as (_ & Hh & _ & _).
  repeat split.
  - intros c cd. rewrite Hreg, Hh. apply H1.
  - intros rid st' Hst'. destruct (quiet_back _ _ _ _ Hq Hst') as (st & Hst & Hext).
    destruct Hext as (_ & _ & -> & _). rewrite Hh. by eapply H2.
  - intros e em. rewrite Hh. apply H3.
Qed.

Lemma listeners_run s evs : listeners_complete s → listeners_complete (run s evs).
Proof.
  revert s. apply (run_rel (λ s s', listeners_complete s → listeners_complete s')).
  - done.
  - intros s1 s2 s3 H12 H23 H1. by apply H23, H12.
  - intros q s. by apply listeners_quiet; [apply quiet_same|].
  - intros c s (H1 & H2 & H3). repeat split; [|done|done].
    intros c0 cd0 Hc0. simpl in Hc0.
    apply lookup_delete_Some in Hc0 as [_ Hc0]. by eapply H1.
  - intros c s Hnone (H1 & H2 & H3). repeat split.
    + intros c0 cd0. simpl. rewrite length_app. simpl.
      destruct (decide (c0 = c)) as [->|Hne].
      * rewrite lookup_insert_eq. intros [= <-]. simpl. lia.
      * rewrite lookup_insert_ne by done. intros Hc0. specialize (H1 _ _ Hc0). lia.
    + intros rid st Hst. simpl in *. destruct (H2 _ _ Hst) as (em & Hem & Hin).
      exists em. split; [by apply lookup_app_l_Some|done].
    + intros e em. simpl. intros [[_ Hem]|[_ <-]]%lookup_snoc_Some; [by eapply H3|done].
  - intros c e mc s Hc (H1 & H2 & H3).
    assert (He : e < length (heap s)) by exact (H1 _ _ Hc).
    destruct (lookup_lt_is_Some_2 _ _ He) as [em Hem].
    rewrite (attach_eq _ _ _ _ _ Hem). repeat split.
    + intros c0 cd0. simpl. rewrite length_insert. apply H1.
    + intros rid st. simpl. intros [[_ Hst]|[-> <-]]%lookup_snoc_Some.
      * destruct (H2 _ _ Hst) as (em0 & Hem0 & Hin).
        destruct (decide (s_emitter st = e)) as [Heq|Hne].
        -- rewrite Heq in *. rewrite Hem in Hem0. injection Hem0 as <-.
           eexists. split; [by apply list_lookup_insert_eq|].
           simpl. apply elem_of_app. by left.
        -- exists em0. split; [by rewrite list_lookup_insert_ne|done].
      * simpl. eexists. split; [by apply list_lookup_insert_eq|].
        simpl. apply elem_of_app. right. apply list_elem_of_here.
    + intros e0 em0. simpl. destruct (decide (e0 = e)) as [->|Hne].
      * rewrite list_lookup_insert_eq by done. intros [= <-]. simpl.
        by rewrite (H3 _ _ Hem).
      * rewrite list_lookup_insert_ne by done. apply H3.
  - intros data rid s HJ. assert (HJ' := HJ). destruct HJ' as (H1 & H2 & H3).
    destruct (streams s !! rid) as [st|] eqn:Hst.
    + assert (Hq := quiet_listener data rid s).
      assert (Hq' := Hq). destruct Hq' as (_ & Hh & _ & _).
      repeat split.
      * intros c0 cd0. rewrite Hh. rewrite (broadcast_listener_eq _ _ _ _ Hst). simpl.
        destruct (decide (c0 = s_channelId st)) as [->|Hne].
        -- rewrite lookup_insert_eq. intros [= <-]. simpl.
           destruct (H2 _ _ Hst) as (em & Hem & _). by eapply lookup_lt_Some.
        -- rewrite lookup_insert_ne by done. apply H1.
      * intros r st' Hst'. destruct (quiet_back _ _ _ _ Hq Hst') as (st0 & Hst0 & Hext).
        destruct Hext as (_ & _ & -> & _). rewrite Hh. by eapply H2.
      * intros e em. rewrite Hh. apply H3.
    + unfold broadcast_listener. by rewrite Hst.
  - intros i s. apply listeners_quiet; [apply quiet_tick|].
    unfold tick. destruct (intervals s !! i) as [iv|]; [|done].
    destruct (i_cleared iv); [done|]. unfold res_write.
    by destruct (streams s !! i_owner iv).
  - intros rid s. apply listeners_quiet; [apply quiet_disconnect|].
    unfold disconnect. by destruct (streams s !! rid).
Qed.

Lemma listeners_iff s e em :
  reachable s → heap s !! e = Some em →
  on_close em = on_broadcast em ∧
  ∀ rid, rid ∈ on_broadcast em ↔ ∃ st, streams s !! rid = Some st ∧ s_emitter st = e.
Proof.
  intros Hreach Hem. assert (HI := Inv_reachable _ Hreach).
  destruct Hreach as [evs ->].
  assert (HJ : listeners_complete (run init evs)).
  { apply listeners_run. repeat split; intros ? ? H; simpl in H;
      by rewrite ?lookup_empty in H. }
  destruct HJ as (_ & H2 & H3). destruct (inv_listeners _ HI _ _ Hem) as [_ Hall].
  split; [by apply (H3 e)|]. intros rid. split.
  - intros Hin. rewrite Forall_forall in Hall. by apply Hall.
  - intros (st & Hst & <-). destruct (H2 _ _ Hst) as (em' & Hem' & Hin).
    rewrite Hem in Hem'. by injection Hem' as <-.
Qed.

(** X3: in every reachable state the broadcast listeners of an emitter are
    exactly the streams that were opened on it, each listed once, and its
    close listeners are the same list: no request, tick or disconnect ever
    takes a stream off its emitter. *)
Theorem listeners_are_all_streams s e em :
  reachable s → heap s !! e = Some em →
  NoDup (on_broadcast em) ∧ on_close em = on_broadcast em ∧
  ∀ rid, rid ∈ on_broadcast em ↔ ∃ st, streams s !! rid = Some st ∧ s_emitter st = e.
Proof.
  intros Hreach Hem. destruct (listeners_iff s e em Hreach Hem) as [Hclose Hiff].
  destruct (inv_listeners _ (Inv_reachable _ Hreach) _ _ Hem) as [Hnd _].
  by repeat split; try apply Hiff.
Qed.

Lemma listeners_are_all_streams_witness :
  1 ∈ [0; 1] ↔ ∃ st, streams one_gone !! 1 = Some st ∧ s_emitter st = 0.
Proof.
  destruct (listeners_are_all_streams one_gone 0 (mkEmitter [0; 1] [0; 1])
              (ex_intro _ [GetEvents sse "1"; GetEvents sse "1"; Disconnect 0] eq_refl)
              eq_refl) as (_ & _ & H).
  exact (H 1).
Defined.

(** ** Channels do not interfere *)

(** X4: in every reachable state, a message posted on another channel, a
    stream opened on another channel and the deletion of another channel
    leave the registry entry of [c] and every stream that listens on the
    hub of [c] exactly as they were. *)
Theorem other_channel_untouched s c cd em c' rid st ev :
  reachable s →
  eventEmitters s !! c = Some cd → heap s !! emitter cd = Some em →
  rid ∈ on_broadcast em → streams s !! rid = Some st →
  c' ≠ c →
  (∃ content username db, ev = PostMessage c' content username db) ∨
  (∃ accept, ev = GetEvents accept c') ∨
  (∃ db1 db2, ev = DeleteChannel c' db1 db2) →
  eventEmitters (fst (step s ev)) !! c = Some cd ∧
  streams (fst (step s ev)) !! rid = Some st.
Proof.
  intros Hreach Hc Hem Hr Hst Hne Hev. assert (HI := Inv_reachable _ Hreach). split.
  - rewrite (step_registry _ _ _ HI), Hc.
    destruct Hev as [(content & username & db & ->)|[(accept & ->)|(db1 & db2 & ->)]];
      simpl; try done.
    + destruct db; [|done]. by rewrite bool_decide_eq_false_2.
    + by rewrite bool_decide_eq_false_2, andb_false_r.
  - destruct Hev as [(content & username & db & ->)|[(accept & ->)|(db1 & db2 & ->)]].
    + rewrite step_post_message. destruct db as [[id created_at]|]; [|done].
      destruct (eventEmitters s !! c') as [cd'|] eqn:Hcd'; [|done].
      assert (HI' := Inv_log_query (InsertMessage content c' username) s HI).
      destruct (inv_hub _ HI _ _ Hcd') as (em' & Hem' & _).
      destruct (emit_hub _ _ _ _ (mkPayload c' id username content created_at)
                  HI' Hcd' Hem') as (_ & _ & _ & _ & _ & Hlk).
      rewrite Hlk, bool_decide_eq_false_2; [done|]. intros Hin. apply Hne.
      apply (Inv_emitter_inj s c' c cd' cd HI Hcd' Hc).
      rewrite <- (listener_emitter _ _ _ _ _ HI Hem' Hin Hst).
      by rewrite (listener_emitter _ _ _ _ _ HI Hem Hr Hst).
    + destruct (decide (accept = sse)) as [->|Hacc];
        [|by rewrite step_get_events_plain].
      destruct (nonempty c') eqn:Hc';
        [|apply nonempty_false in Hc' as ->; by rewrite step_get_events_empty].
      rewrite step_get_events_stream by done.
      destruct (eventEmitters s !! c') as [cd'|];
        match goal with |- streams (attach ?a ?b ?d ?x) !! _ = _ =>
          destruct (attach_frame a b d x) as (_ & -> & _) end;
        by apply lookup_app_l_Some.
    + rewrite step_delete_channel. by destruct (nonempty c'), db1, db2.
Qed.

Lemma other_channel_untouched_witness :
  let s' := fst (step two_channels
                   (PostMessage "2" (Some "hi") (Some "alice") (Some (7, "t0")))) in
  eventEmitters s' !! "1" = Some (mkChannelData 0 1) ∧
  streams s' !! 0 = Some (mkStream [InitChunk] false "1" 0 1 0).
Proof.
  apply (other_channel_untouched two_channels "1" (mkChannelData 0 1)
           (mkEmitter [0] [0]) "2" 0 (mkStream [InitChunk] false "1" 0 1 0)
           (PostMessage "2" (Some "hi") (Some "alice") (Some (7, "t0")))
           (ex_intro _ [GetEvents sse "1"; GetEvents sse "2"] eq_refl)
           eq_refl eq_refl (list_elem_of_here 0 []) eq_refl).
  - discriminate.
  - left. by eexists _, _, _.
Defined.

(** ** The replies of [POST /message] *)

(** X5: the reply of [POST /message/:channelId] on every input.  The
    client is sent 400 when a field is missing, nothing when the fields are
    there and the insert is rejected, 404 without hub and 201 with one; and
    the handler ends without an uncaught exception in the 201 case only. *)
Theorem post_message_reply s c content username db :
  let r := snd (step s (PostMessage c content username db)) in
  sent r =
    (if complete c content username then
       match db with
       | None => None
       | Some _ =>
           match eventEmitters s !! c with
           | None => Some (404, Text "Channel not found")
           | Some _ => Some (201, JsonMsg "Chat message posted")
           end
       end
     else Some (400, JsonMsg "Missing required argument (channelId, content or username)")) ∧
  threw r =
    negb (complete c content username &&
          bool_decide (is_Some db) && bool_decide (is_Some (eventEmitters s !! c))).
Proof.
  unfold step, serve, post_message, complete, bind, when, respond, pool_query,
    get_state, modify, ret.
  destruct (nonempty c), (truthy content), (truthy username),
    db as [[id created_at]|]; simpl;
    try (split; reflexivity);
    destruct (eventEmitters s !! c) as [cd|]; simpl; split; reflexivity.
Qed.

(** X6: in every reachable state a [POST /message] writes to the streams
    exactly when its insert returned a row and the channel has a hub,
    whether or not the request passed validation; otherwise only the
    database log changes. *)
Theorem broadcast_iff_row_and_hub s c content username db :
  reachable s →
  let s' := fst (step s (PostMessage c content username db)) in
  (streams s' ≠ streams s ↔ is_Some db ∧ is_Some (eventEmitters s !! c)) ∧
  (¬ (is_Some db ∧ is_Some (eventEmitters s !! c)) →
   s' = log_query (InsertMessage content c username) s).
Proof.
  intros Hreach s'. assert (HI := Inv_reachable _ Hreach).
  assert (Hquiet : ¬ (is_Some db ∧ is_Some (eventEmitters s !! c)) →
                   s' = log_query (InsertMessage content c username) s).
  { intros Hno. subst s'. rewrite step_post_message.
    destruct db as [[id created_at]|]; [|done].
    destruct (eventEmitters s !! c) as [cd|]; [|done].
    destruct Hno. split; by eexists. }
  split; [|done]. split.
  - intros Hchanged.
    destruct (decide (is_Some db ∧ is_Some (eventEmitters s !! c))) as [|Hno]; [done|].
    destruct Hchanged. by rewrite (Hquiet Hno).
  - intros [[[id created_at] ->] [cd Hcd]] Heq.
    destruct (inv_hub _ HI _ _ Hcd) as (em & Hem & Hne & _).
    destruct (on_broadcast em) as [|rid ls] eqn:Hls; [done|].
    assert (Hr : rid ∈ on_broadcast em) by (rewrite Hls; apply list_elem_of_here).
    destruct (publish_delivers s c cd em content username id created_at rid
                HI Hcd Hem Hr) as (st & Hst & _ & Hst').
    fold s' in Hst'. rewrite Heq, Hst in Hst'. injection Hst' as Hst'.
    apply (f_equal (λ x, length (s_written x))) in Hst'. simpl in Hst'.
    rewrite length_app in Hst'. simpl in Hst'. lia.
Qed.

Lemma broadcast_iff_row_and_hub_witness :
  streams (fst (step two_subscribers (PostMessage "1" None None (Some (7, "t0")))))
  ≠ streams two_subscribers.
Proof.
  destruct (broadcast_iff_row_and_hub two_subscribers "1" None None (Some (7, "t0"))
              (ex_intro _ [GetEvents sse "1"; GetEvents sse "1"] eq_refl)) as [[_ H] _].
  apply H. split; by eexists.
Defined.

(** ** Deleting a channel *)

(** X7: [DELETE /channel/:channelId] on every input.  The handler never
    ends with an exception; it answers 500 when one of its two statements
    is rejected and 204 otherwise.  The statement on [channels] is sent
    only after the one on [messages] succeeded, and the hub is dropped only
    after both succeeded.  Whatever happens, no stream is written to, no
    timer is cleared and no listener is removed. *)
Theorem delete_channel_outcome s c db1 db2 :
  let r := step s (DeleteChannel c db1 db2) in
  snd r = mkReply (Some (if nonempty c && negb (db1 && db2)
                         then (500, ErrBody) else (204, EmptyBody))) false ∧
  eventEmitters (fst r) =
    (if nonempty c && db1 && db2 then delete c (eventEmitters s) else eventEmitters s) ∧
  pool (fst r) =
    pool s ++ (if nonempty c
               then DeleteMessages c :: (if db1 then [DeleteChannelRow c] else [])
               else []) ∧
  heap (fst r) = heap s ∧ streams (fst r) = streams s ∧ intervals (fst r) = intervals s.
Proof.
  unfold step, serve, delete_channel, try_catch, bind, when, respond, pool_query,
    modify, ret.
  destruct (nonempty c), db1, db2; simpl; rewrite <- ?app_assoc, ?app_nil_r; done.
Qed.

(** ** Disconnects are never observed *)

Lemma forget_attach c e mc s : forget (attach c e mc s) = attach c e mc (forget s).
Proof.
  unfold attach, on_close_add, on_broadcast_add, forget. simpl.
  rewrite length_fmap.
  destruct (heap s !! e) as [em|] eqn:Hem; simpl.
  - rewrite list_lookup_insert_eq by by eapply lookup_lt_Some.
    simpl. unfold set_streams. simpl. by rewrite fmap_app.
  - rewrite Hem. unfold set_streams. simpl. by rewrite fmap_app.
Qed.

Lemma forget_listener data rid s :
  forget (broadcast_listener data rid s) = broadcast_listener data rid (forget s).
Proof.
  unfold broadcast_listener, forget. simpl. rewrite list_lookup_fmap.
  destruct (streams s !! rid) as [st|]; simpl; [|done].
  unfold set_eventEmitters, set_streams. simpl. by rewrite list_fmap_insert.
Qed.

Lemma forget_call_listeners data ls : ∀ s,
  forget (call_listeners data ls s) = call_listeners data ls (forget s).
Proof.
  induction ls as [|r ls IH]; intros s; [done|]. simpl.
  by rewrite IH, forget_listener.
Qed.

Lemma forget_emit e data s :
  forget (emit_broadcast e data s) = emit_broadcast e data (forget s).
Proof.
  unfold emit_broadcast. simpl. destruct (heap s !! e); [|done].
  apply forget_call_listeners.
Qed.

Lemma forget_tick i s : forget (tick i s) = tick i (forget s).
Proof.
  unfold tick, res_write, forget. simpl. destruct (intervals s !! i) as [iv|]; [|done].
  destruct (i_cleared iv); [done|]. rewrite list_lookup_fmap.
  destruct (streams s !! i_owner iv) as [st|]; simpl; [|done].
  unfold set_streams. simpl. by rewrite list_fmap_insert.
Qed.

Lemma forget_disconnect rid s : forget (disconnect rid s) = forget s.
Proof.
  unfold disconnect, forget. destruct (streams s !! rid) as [st|] eqn:Hst; [|done].
  unfold set_streams. simpl. rewrite list_fmap_insert. f_equal.
  apply list_insert_id. by rewrite list_lookup_fmap, Hst.
Qed.

Lemma forget_step s ev :
  is_request ev = true → forget (fst (step s ev)) = fst (step (forget s) ev).
Proof.
  intros Hreq.
  destruct ev as [name db|db|c db1 db2|accept c|c db|c content username db|i|rid];
    [| | | | | | |done].
  - by rewrite !step_post_channel.
  - by rewrite !step_get_channels.
  - rewrite !step_delete_channel. by destruct (nonempty c), db1, db2.
  - destruct (decide (accept = sse)) as [->|Hacc];
      [|by rewrite !step_get_events_plain].
    destruct (nonempty c) eqn:Hc;
      [|apply nonempty_false in Hc as ->; by rewrite !step_get_events_empty].
    rewrite !step_get_events_stream by done. simpl.
    destruct (eventEmitters s !! c) as [cd|]; by rewrite forget_attach.
  - by rewrite !step_get_messages.
  - rewrite !step_post_message. simpl. destruct db as [[id created_at]|]; [|done].
    destruct (eventEmitters s !! c) as [cd|]; [|done]. by rewrite forget_emit.
  - simpl. apply forget_tick.
Qed.

Lemma forget_reply s ev : snd (step (forget s) ev) = snd (step s ev).
Proof.
  destruct ev as [name db|db|c db1 db2|accept c|c db|c content username db|i|rid];
    [| | | | | |done|done].
  - unfold step, serve, post_channel, try_catch, bind, when, respond, pool_query, ret.
    by destruct (truthy name), db.
  - unfold step, serve, get_channels, try_catch, bind, respond, pool_query.
    by destruct db.
  - unfold step, serve, delete_channel, try_catch, bind, when, respond, pool_query,
      modify, ret.
    by destruct (nonempty c), db1, db2.
  - unfold step, serve, get_events, lookup_or_create, bind, when, respond, get_state,
      modify, ret.
    case_bool_decide; [|done].
    destruct (nonempty c); simpl; [|done]. rewrite length_fmap.
    by destruct (eventEmitters s !! c).
  - unfold step, serve, get_messages, try_catch, bind, when, respond, pool_query, ret.
    by destruct (nonempty c), db.
  - unfold step, serve, post_message, bind, when, respond, pool_query, get_state,
      modify, ret.
    destruct (negb (nonempty c) || negb (truthy content) || negb (truthy username)),
      db as [[id created_at]|]; simpl; try done;
      by destruct (eventEmitters s !! c).
Qed.

Lemma forget_run evs : ∀ s,
  forget (run s evs) = run (forget s) (filter (λ ev, is_request ev = true) evs).
Proof.
  induction evs as [|ev evs IH]; intros s; [done|].
  rewrite run_cons, IH. destruct (is_request ev) eqn:Hreq.
  - rewrite filter_cons_True by done. by rewrite run_cons, forget_step.
  - rewrite filter_cons_False by (rewrite Hreq; done).
    destruct ev; try done. simpl. by rewrite forget_disconnect.
Qed.

(** X8: the server never observes a client going away.  After any sequence
    of requests, ticks and disconnects the state is, up to the flags that
    record the disconnects, the state reached without the disconnects; and
    the reply to a request does not depend on these flags. *)
Theorem disconnects_unobserved evs s ev :
  forget (run init evs) = run init (filter (λ ev, is_request ev = true) evs) ∧
  snd (step (forget s) ev) = snd (step s ev).
Proof. split; [apply (forget_run evs init)|apply forget_reply]. Qed.

(** ** Hubs in reachable states *)

(** X9: in every reachable state a hub is registered under a non-empty
    channel id, its counter is at least 1, its emitter has at least one
    broadcast listener, is the emitter of no other channel, and each of its
    listeners is a stream opened on that channel which holds the hub's
    counter. *)
Theorem hub_well_formed s c cd :
  reachable s → eventEmitters s !! c = Some cd →
  c ≠ "" ∧ 1 ≤ messageCounter cd ∧
  (∃ em, heap s !! emitter cd = Some em ∧ on_broadcast em ≠ [] ∧
         ∀ rid, rid ∈ on_broadcast em →
           ∃ st, streams s !! rid = Some st ∧ s_channelId st = c ∧
                 s_messageCounter st = messageCounter cd) ∧
  (∀ c' cd', eventEmitters s !! c' = Some cd' → emitter cd' = emitter cd → c' = c).
Proof.
  intros Hreach Hc. assert (HI := Inv_reachable _ Hreach). destruct Hreach as [evs ->].
  repeat split.
  - intros ->. assert (Hsome : is_Some (eventEmitters (run init evs) !! "")) by by eexists.
    apply hub_lifetime in Hsome as (evs1 & ev & evs2 & _ & Hsub & _).
    destruct ev as [| | |accept c'| | | |]; try done. simpl in Hsub.
    destruct (decide (c' = "")) as [->|Hne].
    + by rewrite andb_false_r in Hsub.
    + by rewrite (bool_decide_eq_false_2 (c' = "")), andb_false_r in Hsub.
  - assert (H := counter_published c evs init 0 Inv_init eq_refl).
    unfold counter_is in H. rewrite Hc in H. lia.
  - destruct (inv_hub _ HI _ _ Hc) as (em & Hem & Hne & Hall).
    exists em. repeat split; [done..|]. intros rid Hr.
    rewrite Forall_forall in Hall. destruct (Hall rid Hr) as (st & Hst & Hch & _ & Hm).
    by exists st.
  - intros c' cd' Hc' Heq. by eapply (Inv_emitter_inj _ c' c cd' cd HI).
Qed.

Lemma hub_well_formed_witness :
  "2" ≠ "" ∧
  ∃ em, heap two_channels !! 1 = Some em ∧ on_broadcast em ≠ [] ∧
        ∀ rid, rid ∈ on_broadcast em →
          ∃ st, streams two_channels !! rid = Some st ∧ s_channelId st = "2" ∧
                s_messageCounter st = 1.
Proof.
  destruct (hub_well_formed two_channels "2" (mkChannelData 1 1)
              (ex_intro _ [GetEvents sse "1"; GetEvents sse "2"] eq_refl) eq_refl)
    as (Hne & _ & Hem & _).
  split; [exact Hne|exact Hem].
Defined.

(** ** The endpoints that only talk to the database *)

(** X10: [POST /channel] on every input.  Exactly one insert is sent to the
    database, and nothing else of the state changes.  With a name the client
    is sent 200 with the new id and the name, or 500 when the insert is
    rejected; without a name it is sent 400, the insert is sent with the
    missing name all the same, and the handler ends with an uncaught
    exception whatever the database answers. *)
Theorem post_channel_outcome s name db :
  let r := step s (PostChannel name db) in
  fst r = log_query (InsertChannel name) s ∧
  sent (snd r) =
    (if truthy name then
       match db with
       | Some id => Some (200, JsonChannel id name)
       | None => Some (500, ErrBody)
       end
     else Some (400, JsonMsg "Missing required argument name")) ∧
  threw (snd r) = negb (truthy name).
Proof.
  unfold step, serve, post_channel, try_catch, bind, when, respond, pool_query,
    ret, log_query.
  by destruct (truthy name), db.
Qed.

(** X11: [GET /channels] and [GET /messages/:channelId] send one select to
    the database and change nothing else.  When the select succeeds the
    client is sent 200 with the rows as returned ([n] being their number),
    when it is rejected 404; neither handler ends with an exception for a
    non-empty channel id. *)
Theorem read_endpoints_outcome s c rows_or_error :
  step s (GetChannels rows_or_error) =
    (log_query SelectChannels s,
     mkReply (Some (match rows_or_error with
                    | Some rows => (200, JsonChannels (length rows) rows)
                    | None => (404, ErrBody)
                    end)) false) ∧
  (nonempty c = true →
   step s (GetMessages c rows_or_error) =
     (log_query (SelectMessages c) s,
      mkReply (Some (match rows_or_error with
                     | Some rows => (200, JsonMessages rows)
                     | None => (404, ErrBody)
                     end)) false)).
Proof.
  split.
  - unfold step, serve, get_channels, try_catch, bind, respond, pool_query, log_query.
    by destruct rows_or_error.
  - intros Hc.
    unfold step, serve, get_messages, try_catch, bind, when, respond, pool_query,
      ret, log_query.
    rewrite Hc. by destruct rows_or_error.
Qed.

Lemma read_endpoints_outcome_witness :
  snd (step two_channels (GetMessages "1" (Some ["row"]))) =
  mkReply (Some (200, JsonMessages ["row"])) false.
Proof.
  destruct (read_endpoints_outcome two_channels "1" (Some ["row"])) as [_ H].
  by rewrite (H eq_refl).
Defined.

(** ** After a deletion *)

Lemma no_hub_run c evs : ∀ s,
  Inv s → eventEmitters s !! c = None →
  Forall (λ ev, subscribes c ev = false) evs →
  eventEmitters (run s evs) !! c = None.
Proof.
  induction evs as [|ev evs IH]; intros s HI Hnone Hall; [done|].
  apply Forall_cons in Hall as [Hev Hall]. rewrite run_cons.
  apply IH; [by apply Inv_step| |done].
  by rewrite (step_registry _ _ _ HI), Hnone, Hev.
Qed.

(** X13: in a run in which no handler has ended with an uncaught
    exception, once [DELETE /channel/c] has succeeded and as long as no
    stream is opened on [c] again, a complete [POST /message/c] whose insert
    returns a row is answered 404 and is written to no stream, the ones
    opened on [c] before the deletion included; its insert is sent to the
    database, and its handler ends with an uncaught exception. *)
Theorem post_after_delete evs evs' c content username id created_at :
  live init (evs ++ DeleteChannel c true true :: evs') →
  complete c content username = true →
  Forall (λ ev, subscribes c ev = false) evs' →
  let s := run init (evs ++ DeleteChannel c true true :: evs') in
  let r := step s (PostMessage c content username (Some (id, created_at))) in
  snd r = mkReply (Some (404, Text "Channel not found")) true ∧
  streams (fst r) = streams s ∧
  pool (fst r) = pool s ++ [InsertMessage content c username].
Proof.
  intros _ Hcomplete Hall s r. unfold complete in Hcomplete.
  apply andb_true_iff in Hcomplete as [Hcomplete Huser].
  apply andb_true_iff in Hcomplete as [Hc Hcontent].
  assert (Hnone : eventEmitters s !! c = None).
  { subst s. unfold run. rewrite foldl_app. fold (run init evs).
    change (foldl _ ?a (?ev :: ?l)) with (run (fst (step a ev)) l).
    assert (HI : Inv (run init evs)) by apply Inv_run, Inv_init.
    apply no_hub_run; [by apply Inv_step| |done].
    rewrite (step_registry _ _ _ HI). simpl. rewrite Hc, bool_decide_eq_true_2 by done.
    simpl. by destruct (eventEmitters (run init evs) !! c). }
  subst r. rewrite post_message_valid, Hnone by done. by repeat split.
Qed.

Lemma post_after_delete_witness :
  let s := run init ([GetEvents sse "1"] ++ DeleteChannel "1" true true :: [Tick 0]) in
  snd (step s (PostMessage "1" (Some "hi") (Some "alice") (Some (7, "t0")))) =
  mkReply (Some (404, Text "Channel not found")) true.
Proof.
  destruct (post_after_delete [GetEvents sse "1"] [Tick 0] "1" (Some "hi") (Some "alice")
              7 "t0" (conj eq_refl (conj eq_refl (conj eq_refl I))) eq_refl
              (Forall_cons_2 (λ ev, subscribes "1" ev = false) (Tick 0) [] eq_refl
                 (Forall_nil_2 _)))
    as (H & _).
  exact H.
Defined.

(** ** The close listener *)

Lemma close_listener_eq rid s st :
  streams s !! rid = Some st → close_listener rid s = clearInterval (s_intervalId st) s.
Proof.
  intros Hst. unfold close_listener, removeListener. rewrite Hst.
  by destruct (heap (clearInterval (s_intervalId st) s) !! s_emitter st).
Qed.

Lemma close_listeners_spec ls : ∀ s,
  Forall (λ rid, ∃ st, streams s !! rid = Some st ∧ s_intervalId st = rid) ls →
  heap (foldl (λ s' rid, close_listener rid s') s ls) = heap s ∧
  streams (foldl (λ s' rid, close_listener rid s') s ls) = streams s ∧
  eventEmitters (foldl (λ s' rid, close_listener rid s') s ls) = eventEmitters s ∧
  ∀ i, intervals (foldl (λ s' rid, close_listener rid s') s ls) !! i =
       (λ iv, if bool_decide (i ∈ ls) then cleared iv else iv) <$> intervals s !! i.
Proof.
  induction ls as [|r ls IH]; intros s Hall.
  - simpl. repeat split. intros i. by destruct (intervals s !! i).
  - apply Forall_cons in Hall as [(st & Hst & Hid) Hall]. simpl.
    rewrite (close_listener_eq _ _ _ Hst), Hid.
    assert (Hs1 : streams (clearInterval r s) = streams s ∧
                  heap (clearInterval r s) = heap s ∧
                  eventEmitters (clearInterval r s) = eventEmitters s).
    { unfold clearInterval. by destruct (intervals s !! r). }
    destruct Hs1 as (Hstr & Hh & Hreg).
    destruct (IH (clearInterval r s)) as (-> & -> & -> & Hiv).
    { by rewrite Hstr. }
    repeat split; [done..|]. intros i. rewrite Hiv.
    unfold clearInterval. destruct (decide (i = r)) as [->|Hne].
    + rewrite (bool_decide_eq_true_2 (r ∈ r :: ls)) by apply list_elem_of_here.
      destruct (intervals s !! r) as [iv|] eqn:Hr; simpl.
      * rewrite list_lookup_insert_eq by by eapply lookup_lt_Some.
        simpl. by case_bool_decide.
      * by rewrite Hr.
    + assert (Hsame : intervals (match intervals s !! r with
                                 | Some iv => set_intervals
                                     <[r := mkInterval (i_owner iv) (i_delay iv) true]> s
                                 | None => s
                                 end) !! i = intervals s !! i).
      { destruct (intervals s !! r); [|done]. simpl. by rewrite list_lookup_insert_ne. }
      rewrite Hsame. destruct (intervals s !! i) as [iv|]; [|done]. simpl.
      destruct (decide (i ∈ ls)).
      * rewrite !bool_decide_eq_true_2; [done|by apply list_elem_of_further|done].
      * rewrite !bool_decide_eq_false_2; [done| |done].
        by intros [?|?]%elem_of_cons.
Qed.

(** X14: what the listener of lines 175-178 would do if "close" were
    emitted on an emitter of a reachable state: the timer of every stream
    opened on that emitter is cleared and every other timer keeps running,
    while the registry, the streams and the listeners of every emitter, the
    broadcast listeners included, stay as they are; a tick of a cleared
    timer then writes nothing. *)
Theorem emit_close_effect s e em :
  reachable s → heap s !! e = Some em →
  let s' := emit_close e s in
  heap s' = heap s ∧ streams s' = streams s ∧ eventEmitters s' = eventEmitters s ∧
  length (intervals s') = length (intervals s) ∧
  (∀ i st, streams s !! i = Some st →
     intervals s' !! i = Some (mkInterval i 10000 (bool_decide (s_emitter st = e))) ∧
     (s_emitter st = e → tick i s' = s')).
Proof.
  intros Hreach Hem s'.
  destruct (listeners_iff s e em Hreach Hem) as (Hclose & Hiff).
  assert (Htimers : ∀ i st, streams s !! i = Some st →
            s_intervalId st = i ∧ intervals s !! i = Some (mkInterval i 10000 false)).
  { intros i st Hst. destruct (timers_reachable s Hreach) as (_ & Hid & Htm).
    split; [by apply Hid|]. apply Htm. by eapply lookup_lt_Some. }
  assert (Hall : Forall (λ rid, ∃ st, streams s !! rid = Some st ∧ s_intervalId st = rid)
                   (on_close em)).
  { apply Forall_forall. intros rid Hin. rewrite Hclose in Hin.
    apply Hiff in Hin as (st & Hst & _). exists st. split; [done|].
    by apply Htimers. }
  destruct (close_listeners_spec (on_close em) s Hall) as (Hh & Hstr & Hreg & Hiv).
  assert (Hs' : s' = foldl (λ s0 rid, close_listener rid s0) s (on_close em)).
  { subst s'. unfold emit_close. by rewrite Hem. }
  rewrite Hs'. split; [done|]. split; [done|]. split; [done|]. split.
  - apply Nat.le_antisymm; apply Nat.nlt_ge; intros Hlt.
    + destruct (lookup_lt_is_Some_2 _ _ Hlt) as [iv Hi]. rewrite Hiv in Hi.
      rewrite (lookup_ge_None_2 (intervals s) (length (intervals s))) in Hi by lia.
      done.
    + destruct (lookup_lt_is_Some_2 _ _ Hlt) as [iv Hi].
      specialize (Hiv (length (intervals
        (foldl (λ s0 rid, close_listener rid s0) s (on_close em))))).
      rewrite Hi in Hiv. rewrite lookup_ge_None_2 in Hiv by lia. done.
  - intros i st Hst. destruct (Htimers _ _ Hst) as [_ Hi]. split.
    + rewrite Hiv, Hi. simpl. unfold cleared. simpl.
      f_equal. rewrite Hclose. destruct (decide (s_emitter st = e)) as [Heq|Hne].
      * rewrite !bool_decide_eq_true_2; [done..|]. apply Hiff. by exists st.
      * rewrite !bool_decide_eq_false_2; [done..|].
        intros (st' & Hst' & He)%Hiff. rewrite Hst in Hst'. by injection Hst' as <-.
    + intros He. unfold tick. rewrite Hiv, Hi. simpl.
      rewrite bool_decide_eq_true_2; [done|]. rewrite Hclose. apply Hiff. by exists st.
Qed.

Lemma emit_close_effect_witness :
  intervals (emit_close 0 two_channels) !! 0 = Some (mkInterval 0 10000 true) ∧
  intervals (emit_close 0 two_channels) !! 1 = Some (mkInterval 1 10000 false).
Proof.
  destruct (emit_close_effect two_channels 0 (mkEmitter [0] [0])
              (ex_intro _ [GetEvents sse "1"; GetEvents sse "2"] eq_refl) eq_refl)
    as (_ & _ & _ & _ & H).
  split.
  - exact (proj1 (H 0 (mkStream [InitChunk] false "1" 0 1 0) eq_refl)).
  - exact (proj1 (H 1 (mkStream [InitChunk] false "2" 1 1 1) eq_refl)).
Defined.
